(** * Journal variables of the Skyrim SE Journal mod (variables.cpp)

    A shallow embedding of [src/variables.cpp]: the chained pointer
    resolver [relocation::obtain], the substitution primitive
    [replace_all], the calendar formatter [game_time], the location
    formatter [player_location] and the catalog builder [make_variables],
    followed by the properties established about them.

    Conventions of the model:
    - [std::uintptr_t] is a [Z] taken modulo 2^64; a pointer is its address
      and [nullptr] is address 0;
    - [int] is a [Z] in the 32-bit two's complement range; sums that leave
      the range wrap, and an out-of-range float-to-int conversion yields
      [INT_MIN], as the SSE conversion of the x86-64 target does;
    - [float] is an IEEE-754 binary32 value, decoded from its 32-bit
      pattern into [spec_float] with precision 24 and [emax] 128;
    - [std::string] is [string]; [std::string::npos] is [None];
    - indexing a [std::array] outside its bounds is undefined behaviour and
      is reported as [OutOfBounds]; a loop that never exits is [Diverges]. *)

From Stdlib Require Import ZArith List Bool Arith Lia.
From Stdlib Require Import Ascii String DecimalString.
From Stdlib Require Import SpecFloat FloatClass.
Import ListNotations.

Local Open Scope string_scope.

(* ================================================================== *)
(** * Part I: the program                                              *)
(* ================================================================== *)

(** ** Results of fallible code *)

Inductive outcome (A : Type) : Type :=
| Ok (a : A)
| OutOfBounds
| Diverges.

Arguments Ok {A} a.
Arguments OutOfBounds {A}.
Arguments Diverges {A}.

Definition bind {A B : Type} (c : outcome A) (k : A -> outcome B) : outcome B :=
  match c with
  | Ok a => k a
  | OutOfBounds => OutOfBounds
  | Diverges => Diverges
  end.

Declare Scope outcome_scope.
Delimit Scope outcome_scope with outcome.
Notation "x <- c ;; k" := (bind c (fun x => k))
  (at level 61, c at next level, right associativity) : outcome_scope.

(** ** std::string operations used by the source *)

Module Str.

Fixpoint take (n : nat) (s : string) : string :=
  match n, s with
  | S n', String c s' => String c (take n' s')
  | _, _ => EmptyString
  end.

Fixpoint drop (n : nat) (s : string) : string :=
  match n, s with
  | S n', String _ s' => drop n' s'
  | _, _ => s
  end.

(** [starts_with s t]: [t] is a prefix of [s]. *)
Fixpoint starts_with (s t : string) {struct t} : bool :=
  match t, s with
  | EmptyString, _ => true
  | String b t', String a s' => Ascii.eqb a b && starts_with s' t'
  | String _ _, EmptyString => false
  end.

(** Position of the first occurrence of [search] in [data]. *)
Fixpoint find0 (data search : string) : option nat :=
  if starts_with data search then Some 0
  else match data with
       | EmptyString => None
       | String _ data' => option_map S (find0 data' search)
       end.

(** [data.find (search, pos)]: the least position [>= pos] at which
    [search] occurs in [data], [npos] when there is none or when [pos]
    is past the end. *)
Definition find (data search : string) (pos : nat) : option nat :=
  if (pos <=? length data)%nat
  then option_map (Nat.add pos) (find0 (drop pos data) search)
  else None.

(** [data.replace (pos, len, str)] for [pos <= data.size ()]; the source
    only calls it with a position returned by [find]. *)
Definition replace (data : string) (pos len : nat) (str : string) : string :=
  take pos data ++ str ++ drop (pos + len) data.

Fixpoint repeat (c : ascii) (n : nat) : string :=
  match n with
  | O => EmptyString
  | S n' => String c (repeat c n')
  end.

End Str.

(** ** replace_all (lines 124-133) *)

(** The [while] loop, entered with the position [n] of the occurrence
    found last; [fuel] bounds the number of iterations and [None] says
    that it did not suffice. *)
Fixpoint replace_loop (fuel : nat) (data search replace : string)
    (n : option nat) : option string :=
  match n with
  | None => Some data
  | Some n =>
      match fuel with
      | O => None
      | S fuel' =>
          let data' := Str.replace data n (length search) replace in
          replace_loop fuel' data' search replace
            (Str.find data' search (n + length replace))
      end
  end.

Definition replace_all (data search replace : string) : outcome string :=
  match replace_loop (length data) data search replace (Str.find data search 0) with
  | Some data' => Ok data'
  | None => Diverges
  end.

(** What the specification asks of the substitution, in its own words:
    every non-overlapping occurrence of the token, left to right, and
    nothing of an inserted replacement is scanned again. *)

Definition occurs (tok s : string) (k : nat) : Prop :=
  exists pre post, s = pre ++ tok ++ post /\ length pre = k.

Inductive Subst (tok repl : string) : string -> string -> Prop :=
| Subst_done (s : string) :
    (forall k, ~ occurs tok s k) -> Subst tok repl s s
| Subst_hit (pre post out : string) :
    (forall k, k < length pre -> ~ occurs tok (pre ++ tok ++ post) k) ->
    Subst tok repl post out ->
    Subst tok repl (pre ++ tok ++ post) (pre ++ repl ++ out).

(** The number of occurrences that such a scan replaces: it counts the
    first occurrence and resumes behind it, so the occurrences counted do
    not overlap. A non-empty token occurs at most [length s] times. *)
Fixpoint count_hits (fuel : nat) (tok s : string) : nat :=
  match fuel with
  | O => O
  | S fuel' =>
      match Str.find0 s tok with
      | None => O
      | Some k => S (count_hits fuel' tok (Str.drop (k + length tok)%nat s))
      end
  end.

Definition occurrences (tok s : string) : nat := count_hits (length s) tok s.

Local Open Scope Z_scope.

(** ** Integers of the target *)

Module Int.

Definition INT_MIN : Z := - 2 ^ 31.
Definition INT_MAX : Z := 2 ^ 31 - 1.

(** Two's complement wrap-around of a 32-bit [int]. *)
Definition wrap (z : Z) : Z := (z + 2 ^ 31) mod 2 ^ 32 - 2 ^ 31.

Definition in_range (z : Z) : bool := (INT_MIN <=? z) && (z <=? INT_MAX).

(** [std::to_string (int)]. *)
Definition to_string (z : Z) : string := NilZero.string_of_int (Z.to_int z).

End Int.

(** ** IEEE-754 binary32 *)

Module F32.

Definition prec : Z := 24.
Definition emax : Z := 128.

(** The float denoted by a 32-bit pattern. *)
Definition of_bits (b : Z) : spec_float :=
  let s := Z.testbit b 31 in
  let e := Z.land (Z.shiftr b 23) 255 in
  let m := Z.land b (2 ^ 23 - 1) in
  if e =? 0 then
    match m with
    | Zpos p => S754_finite s p (-149)
    | _ => S754_zero s
    end
  else if e =? 255 then
    if m =? 0 then S754_infinity s else S754_nan
  else
    match m + 2 ^ 23 with
    | Zpos p => S754_finite s p (e - 150)
    | _ => S754_nan
    end.

Definition zero : spec_float := S754_zero false.

Definition fsub : spec_float -> spec_float -> spec_float := SFsub prec emax.
Definition fmul : spec_float -> spec_float -> spec_float := SFmul prec emax.
Definition fdiv : spec_float -> spec_float -> spec_float := SFdiv prec emax.
Definition flt : spec_float -> spec_float -> bool := SFltb.

(** [std::isnormal] and [std::isfinite]. *)
Definition isnormal (f : spec_float) : bool :=
  match SFclassify prec f with
  | PNormal | NNormal => true
  | _ => false
  end.

Definition isfinite (f : spec_float) : bool :=
  match f with
  | S754_zero _ | S754_finite _ _ _ => true
  | S754_infinity _ | S754_nan => false
  end.

(** The value rounded towards zero, when the float is a number. *)
Definition trunc (f : spec_float) : option Z :=
  match f with
  | S754_zero _ => Some 0
  | S754_finite s m e =>
      Some (cond_Zopp s (if 0 <=? e then Zpos m * 2 ^ e else Zpos m / 2 ^ (- e)))
  | S754_infinity _ | S754_nan => None
  end.

(** [int (f)]: truncation; a value that does not fit (or no number at
    all) is undefined in C++ and gives [INT_MIN] on the target. *)
Definition to_int (f : spec_float) : Z :=
  match trunc f with
  | Some z => if Int.in_range z then z else Int.INT_MIN
  | None => Int.INT_MIN
  end.

(** Conversion of an [int] operand to [float], round to nearest even. *)
Definition of_int (z : Z) : spec_float := binary_normalize prec emax z 0 false.

(** [std::floor] on [float]. *)
Definition floor (f : spec_float) : spec_float :=
  match f with
  | S754_finite s m e =>
      if 0 <=? e then f
      else binary_normalize prec emax (cond_Zopp s (Zpos m) / 2 ^ (- e)) 0 s
  | _ => f
  end.

(** The integer nearest to [num / den], ties to even ([0 < den]). *)
Definition round_half_even (num den : Z) : Z :=
  let q := num / den in
  let r := num mod den in
  match 2 * r ?= den with
  | Lt => q
  | Gt => q + 1
  | Eq => if Z.even q then q else q + 1
  end.

Definition sign_text (s : bool) : string := if s then "-" else "".

Definition pad_zeros (width : nat) (s : string) : string :=
  Str.repeat "0"%char (width - length s)%nat ++ s.

(** Fixed notation with [p] decimals of a non-negative integer count [q]
    of units of 10^-p. *)
Definition fixed_text (p : nat) (q : Z) : string :=
  let unit := 10 ^ Z.of_nat p in
  Int.to_string (q / unit) ++
  match p with
  | O => ""
  | S _ => "." ++ pad_zeros p (Int.to_string (q mod unit))
  end.

(** The text [printf] produces for the conversion [%.pf]: the exact value
    rounded to [p] decimals, ties to even. *)
Definition format_f (p : nat) (f : spec_float) : string :=
  match f with
  | S754_nan => "nan"
  | S754_infinity s => sign_text s ++ "inf"
  | S754_zero s => sign_text s ++ fixed_text p 0
  | S754_finite s m e =>
      let scaled := Zpos m * 10 ^ Z.of_nat p in
      let q := if 0 <=? e then scaled * 2 ^ e
               else round_half_even scaled (2 ^ (- e)) in
      sign_text s ++ fixed_text p q
  end.

(** [std::to_string (float)] prints with [%f]. *)
Definition to_string (f : spec_float) : string := format_f 6 f.

(** Lines 149-150: [sp.resize (15); sp.resize (std::snprintf (&sp[0],
    sp.size (), "%.0f", x))]. [snprintf] stores at most 14 characters and
    a terminator and returns the length of the whole text; the second
    [resize] cuts the string there, or pads it with zero characters. *)
Definition snprintf_0f (f : spec_float) : string :=
  let text := format_f 0 f in
  let l := length text in
  if (l <=? 14)%nat then text
  else Str.take 14 text ++ Str.repeat Ascii.zero (l - 14)%nat.

End F32.

(** ** Process memory and relocation (lines 46-64) *)

Record memory : Type := {
  load64 : Z -> Z;       (* the pointer-sized word stored at an address *)
  load32 : Z -> Z;       (* the 32-bit word stored at an address *)
  c_str : Z -> string    (* the zero-terminated text starting at an address *)
}.

Definition addp (a b : Z) : Z := (a + b) mod 2 ^ 64.

Definition deref (m : memory) (a : Z) : Z := load64 m a mod 2 ^ 64.

Definition load_float (m : memory) (a : Z) : spec_float :=
  F32.of_bits (load32 m a mod 2 ^ 32).

(** [relocation<T, N>]: [N] hops and [1+N] offsets. *)
Record relocation : Type := {
  N : nat;
  offsets : list Z
}.

Definition offset (r : relocation) (i : nat) : Z := nth i (offsets r) 0.

(** The [for] loop of [obtain] from index [i] with [count] hops left:
    [None] is the early [return nullptr]; the list holds the addresses
    read, in order. *)
Fixpoint obtain_loop (m : memory) (r : relocation) (count i : nat) (that : Z)
  : option Z * list Z :=
  match count with
  | O => (Some that, [])
  | S count' =>
      let a := addp that (offset r i) in
      let that' := deref m a in
      if that' =? 0 then (None, [a])
      else let '(res, log) := obtain_loop m r count' (S i) that' in
           (res, a :: log)
  end.

Definition obtain_traced (skyrim_base : Z) (m : memory) (r : relocation)
  : Z * list Z :=
  match obtain_loop m r (N r) 0 skyrim_base with
  | (None, log) => (0, log)
  | (Some that, log) => (addp that (offset r (N r)), log)
  end.

Definition obtain (skyrim_base : Z) (m : memory) (r : relocation) : Z :=
  fst (obtain_traced skyrim_base m r).

(** The cursor of the specification after [i] hops. *)
Fixpoint cursor (m : memory) (base : Z) (r : relocation) (i : nat) : Z :=
  match i with
  | O => base
  | S j => deref m (addp (cursor m base r j) (offset r j))
  end.

Definition hop_address (m : memory) (base : Z) (r : relocation) (j : nat) : Z :=
  addp (cursor m base r j) (offset r j).

(** The globals of the translation unit. *)
Record globals : Type := {
  skyrim_base : Z;
  game_epoch : relocation;
  player_pos : relocation;
  player_cell : relocation;
  worldspace_name : relocation
}.

Definition initial_globals : globals := {|
  skyrim_base := 0;
  game_epoch := {| N := 1; offsets := [0x1ec3bc8; 0x34] |};
  player_pos := {| N := 1; offsets := [0x2f26ef8; 0x54] |};
  player_cell := {| N := 3; offsets := [0x2f26ef8; 0x60; 0x28; 0] |};
  worldspace_name := {| N := 3; offsets := [0x2f26ef8; 0x628; 0x28; 0x00] |}
|}.

(** ** std::array lookups *)

(** [table[i]] on a [std::array]: undefined behaviour outside the bounds. *)
Definition at_ (table : list string) (i : Z) : outcome string :=
  if (0 <=? i) && (i <? Z.of_nat (List.length table))
  then Ok (nth (Z.to_nat i) table "")
  else OutOfBounds.

(** [std::lower_bound] over an ascending table: the index of the first
    entry that is not less than [v], the length when there is none. *)
Fixpoint lower_bound (table : list Z) (v : Z) : nat :=
  match table with
  | [] => O
  | x :: table' => if x <? v then S (lower_bound table' v) else O
  end.

(** ** game_time (lines 200-274) *)

Definition months : list Z :=
  [31; 59; 90; 120; 151; 181; 212; 243; 273; 304; 334; 365].

Definition longmon : list string :=
  ["Morning Star"; "Sun's Dawn"; "First Seed"; "Rain's Hand"; "Second Seed";
   "Midyear"; "Sun's Height"; "Last Seed"; "Hearthfire"; "Frostfall";
   "Sun's Dusk"; "Evening Star"].

Definition birtmon : list string :=
  ["The Ritual"; "The Lover"; "The Lord"; "The Mage"; "The Shadow";
   "The Steed"; "The Apprentice"; "The Warrior"; "The Lady"; "The Tower";
   "The Atronach"; "The Thief"].

Definition argomon : list string :=
  ["Vakka (Sun)"; "Xeech (Nut)"; "Sisei (Sprout)"; "Hist-Deek (Hist Sapling)";
   "Hist-Dooka (Mature Hist)"; "Hist-Tsoko (Elder Hist)";
   "Thtithil-Gah (Egg-Basket)"; "Thtithil (Egg)"; "Nushmeeko (Lizard)";
   "Shaja-Nushmeeko (Semi-Humanoid Lizard)"; "Saxhleel (Argonian)";
   "Xulomaht (The Deceased)"].

Definition longwday : list string :=
  ["Sundas"; "Morndas"; "Tirdas"; "Middas"; "Turdas"; "Fredas"; "Loredas"].

Definition shrtwday : list string :=
  ["Sun"; "Mor"; "Tir"; "Mid"; "Tur"; "Fre"; "Lor"].

(** The locals computed on lines 208-224. *)
Record calendar : Type := {
  cal_h : Z; cal_m : Z; cal_s : Z;
  cal_d : Z; cal_y : Z; cal_yd : Z; cal_wd : Z;
  cal_mo : Z; cal_md : Z
}.

(** Lines 221-224: month index and day of the month of a day of the year. *)
Definition month_of (yd : Z) : Z * Z :=
  let mit := lower_bound months yd in
  let mo := Z.of_nat mit in
  let md := if mo =? 0 then yd else yd - nth (mit - 1) months 0 in
  (mo, md).

Definition compute_calendar (source : spec_float) : calendar :=
  let hms := F32.fsub source (F32.of_int (F32.to_int source)) in
  let hms := F32.fmul hms (F32.of_int 24) in
  let h := F32.to_int hms in
  let hms := F32.fsub hms (F32.of_int (F32.to_int hms)) in
  let hms := F32.fmul hms (F32.of_int 60) in
  let m := F32.to_int hms in
  let hms := F32.fsub hms (F32.of_int (F32.to_int hms)) in
  let s := F32.to_int (F32.fmul hms (F32.of_int 60)) in
  let d := Int.wrap (F32.to_int source + 228) in
  let y := Int.wrap (Z.quot d 365 + 201) in
  let yd := Int.wrap (Z.rem d 365 + 1) in
  let wd := Z.rem (Int.wrap (d + 3)) 7 in
  let '(mo, md) := month_of yd in
  {| cal_h := h; cal_m := m; cal_s := s;
     cal_d := d; cal_y := y; cal_yd := yd; cal_wd := wd;
     cal_mo := mo; cal_md := md |}.

Local Open Scope outcome_scope.

(** Lines 226-273: the substitutions, in the order of the source. *)
Definition substitute_calendar (source : spec_float) (c : calendar)
    (format : string) : outcome string :=
  let sy := Int.to_string (cal_y c) in
  let sY := "4E" ++ sy in
  format <- replace_all format "%y" sy ;;
  format <- replace_all format "%Y" sY ;;
  lm <- at_ longmon (cal_mo c) ;;
  format <- replace_all format "%lm" lm ;;
  bm <- at_ birtmon (cal_mo c) ;;
  format <- replace_all format "%bm" bm ;;
  am <- at_ argomon (cal_mo c) ;;
  format <- replace_all format "%am" am ;;
  format <- replace_all format "%mo" (Int.to_string (Int.wrap (cal_mo c + 1))) ;;
  format <- replace_all format "%md" (Int.to_string (cal_md c)) ;;
  sd <- at_ shrtwday (cal_wd c) ;;
  format <- replace_all format "%sd" sd ;;
  ld <- at_ longwday (cal_wd c) ;;
  format <- replace_all format "%ld" ld ;;
  format <- replace_all format "%wd" (Int.to_string (Int.wrap (cal_wd c + 1))) ;;
  format <- replace_all format "%h" (Int.to_string (cal_h c)) ;;
  format <- replace_all format "%m" (Int.to_string (cal_m c)) ;;
  format <- replace_all format "%s" (Int.to_string (cal_s c)) ;;
  format <- replace_all format "%ri" (Int.to_string (cal_d c)) ;;
  format <- replace_all format "%r" (F32.to_string source) ;;
  Ok format.

(** The guard of line 204 on the float behind a non-null pointer. *)
Definition epoch_rejected (v : spec_float) : bool :=
  negb (F32.isnormal v) || F32.flt v F32.zero.

Definition game_time (g : globals) (m : memory) (format : string)
  : outcome string :=
  let source := obtain (skyrim_base g) m (game_epoch g) in
  if source =? 0 then Ok "(n/a)"
  else
    let v := load_float m source in
    if epoch_rejected v then Ok "(n/a)"
    else substitute_calendar v (compute_calendar v) format.

(** ** player_location (lines 139-169) *)

(** Lines 146-158: the coordinates. *)
Definition substitute_coordinates (p0 p1 p2 : spec_float) (format : string)
  : outcome string :=
  let sp0 := F32.snprintf_0f p0 in
  let sp1 := F32.snprintf_0f p1 in
  let sp2 := F32.snprintf_0f p2 in
  format <- replace_all format "%x" sp0 ;;
  format <- replace_all format "%y" sp1 ;;
  format <- replace_all format "%z" sp2 ;;
  format <- replace_all format "%cx"
    (Int.to_string (F32.to_int (F32.floor (F32.fdiv p0 (F32.of_int 4096))))) ;;
  format <- replace_all format "%cy"
    (Int.to_string (F32.to_int (F32.floor (F32.fdiv p1 (F32.of_int 4096))))) ;;
  Ok format.

(** Lines 160-166: the names, [world] and [cell] being the pointers that
    [worldspace_name.obtain ()] and [player_cell.obtain ()] return. *)
Definition substitute_names (world cell : Z) (m : memory) (format : string)
  : outcome string :=
  format <- (if world =? 0 then replace_all format "%wn" ""
             else replace_all format "%wn" (c_str m world)) ;;
  format <- (if cell =? 0 then replace_all format "%cn" ""
             else replace_all format "%cn" (c_str m cell)) ;;
  Ok format.

Definition player_location (g : globals) (m : memory) (format : string)
  : outcome string :=
  let pos := obtain (skyrim_base g) m (player_pos g) in
  if pos =? 0 then Ok "(n/a)"
  else
    let p0 := load_float m pos in
    let p1 := load_float m (addp pos 4) in
    let p2 := load_float m (addp pos 8) in
    if negb (F32.isfinite p0) || negb (F32.isfinite p1) || negb (F32.isfinite p2)
    then Ok "(n/a)"
    else
      format <- substitute_coordinates p0 p1 p2 format ;;
      substitute_names
        (obtain (skyrim_base g) m (worldspace_name g))
        (obtain (skyrim_base g) m (player_cell g)) m format.

(** The escapes of the two formatters, in the order of their substitution. *)
Definition calendar_tokens : list string :=
  ["%y"; "%Y"; "%lm"; "%bm"; "%am"; "%mo"; "%md"; "%sd"; "%ld"; "%wd";
   "%h"; "%m"; "%s"; "%ri"; "%r"].

Definition location_tokens : list string :=
  ["%x"; "%y"; "%z"; "%cx"; "%cy"; "%wn"; "%cn"].

(** A format string that holds none of the tokens. *)
Definition free_of (tokens : list string) (format : string) : Prop :=
  forall tok, In tok tokens -> forall k, ~ occurs tok format k.

(** The same, decided with the search of the source. *)
Definition holds_none (tokens : list string) (format : string) : bool :=
  forallb (fun tok => match Str.find0 format tok with
                      | None => true
                      | Some _ => false
                      end) tokens.

Local Close Scope outcome_scope.

(** ** make_variables (lines 288-362) *)

(** The render function bound to a variable by its [apply] member. *)
Inductive renderer : Type :=
| render_game_time
| render_player_location
| render_local_time.

(** [variable_t], with the members the source fills in. *)
Record variable_t : Type := {
  fuid : Z;
  deletable : bool;
  name : string;
  info : string;
  params : string;
  apply : renderer
}.

(** What [make_variables] takes from outside this file: the module handle
    of the process, and the [find_target] entry of the hook library, which
    may be absent; given a name and the present content of a slot it tells
    the content the slot has after the call. *)
Record environment : Type := {
  module_handle : Z;
  find_target : option (string -> Z -> Z)
}.

Fixpoint store (i : nat) (v : Z) (l : list Z) : list Z :=
  match l, i with
  | [], _ => []
  | _ :: l', O => v :: l'
  | x :: l', S i' => x :: store i' v l'
  end.

Definition set_offset (r : relocation) (i : nat) (v : Z) : relocation :=
  {| N := N r; offsets := store i v (offsets r) |}.

(** [sseh.find_target (name, &r.offsets[i])]. *)
Definition wire (ft : string -> Z -> Z) (name : string) (r : relocation)
    (i : nat) : relocation :=
  set_offset r i (ft name (offset r i)).

(** Lines 291-306. *)
Definition wire_globals (env : environment) (g : globals) : globals :=
  let base := module_handle env in
  match find_target env with
  | None =>
      {| skyrim_base := base; game_epoch := game_epoch g;
         player_pos := player_pos g; player_cell := player_cell g;
         worldspace_name := worldspace_name g |}
  | Some ft =>
      let ge := wire ft "GameTime" (game_epoch g) 0 in
      let ge := wire ft "GameTime.Offset" ge 1 in
      let pp := wire ft "PlayerCharacter" (player_pos g) 0 in
      let pp := wire ft "PlayerCharacter.Position" pp 1 in
      let pc := wire ft "PlayerCharacter.Cell" (player_cell g) 1 in
      let wn := wire ft "PlayerCharacter.Worldspace" (worldspace_name g) 1 in
      let wn := wire ft "Worldspace.Fullname" wn 2 in
      let pc := wire ft "Cell.Fullname" pc 2 in
      let wn := set_offset wn 0 (offset pp 0) in
      let pc := set_offset pc 0 (offset pp 0) in
      {| skyrim_base := base; game_epoch := ge; player_pos := pp;
         player_cell := pc; worldspace_name := wn |}
  end.

Definition nl : string := String (ascii_of_nat 10) EmptyString.
Definition dq : string := String (ascii_of_nat 34) EmptyString.

Definition gtime : variable_t := {|
  fuid := 1;
  deletable := false;
  name := "Game time (fixed)";
  info := "Following substitions starts with %:" ++ nl ++
    "y is the year number (e.g. 201)" ++ nl ++
    "Y is the year with the epoch in front (e.g. 4E201)" ++ nl ++
    "lm is long month name (e.g. First Seed)" ++ nl ++
    "bm is the birth sign for that month (e.g. The Mage)" ++ nl ++
    "am is the Argonian month (e.g. Hist-Dooka (Mature Hist))" ++ nl ++
    "mo is the month number (from 1 to 12)" ++ nl ++
    "md is the month day numer (from 1 to 28,30 or 31)" ++ nl ++
    "sd is short day name, the 1st three letters (e.g. Tir)" ++ nl ++
    "ld is the long day name (e.g. Middas)" ++ nl ++
    "wd is the week day numer (from 1 to 7)" ++ nl ++
    "h is the hour (from 0 to 23)" ++ nl ++
    "m are the minutes (from 0 to 59)" ++ nl ++
    "s are the seconds (from 0 to 59)" ++ nl ++
    "r is the raw input (aka Papyrus.GetCurrentGameTime ())" ++ nl ++
    "ri is the integer part of %r (i.e. game days since start)";
  params := "%h:%m %ld, day %md of %lm, %Y";
  apply := render_game_time
|}.

Definition ppos : variable_t := {|
  fuid := 3;
  deletable := false;
  name := "Player position (fixed)";
  info := "The World/cell/XYZ coordinates of the player." ++ nl ++
    "This is the same as the Console " ++ dq ++ "player.getpos <axis>" ++ dq ++ nl ++
    "%x %y %z each coordinate respectively" ++ nl ++
    "%cx %cy cell coordinates (useful for modders)" ++ nl ++
    "%cn current cell name, if any" ++ nl ++
    "%wn world space name if any";
  params := "%wn, %cn: %x %y %z";
  apply := render_player_location
|}.

Definition ltime : variable_t := {|
  fuid := 2;
  deletable := false;
  name := "Local time (fixed)";
  info := "Look the format specification on" ++ nl ++
    "https://en.cppreference.com/w/cpp/chrono/c/strftime";
  params := "%X %x";
  apply := render_local_time
|}.

Definition make_variables (env : environment) (g : globals)
  : globals * list variable_t :=
  let g := wire_globals env g in
  let vars := [] in
  let vars := if offset (game_epoch g) 0 =? 0 then vars else (vars ++ [gtime])%list in
  let vars := if offset (player_pos g) 0 =? 0 then vars else (vars ++ [ppos])%list in
  let vars := (vars ++ [ltime])%list in
  (g, vars).

(** The formatter a catalog entry runs; [local_time] reads the wall clock
    and is left out. *)
Definition render (g : globals) (m : memory) (v : variable_t)
  : option (outcome string) :=
  match apply v with
  | render_game_time => Some (game_time g m (params v))
  | render_player_location => Some (player_location g m (params v))
  | render_local_time => None
  end.

(** ** Sample process states *)

Definition sample_base : Z := 0x140000000.

Definition sample_globals : globals := {|
  skyrim_base := sample_base;
  game_epoch := game_epoch initial_globals;
  player_pos := player_pos initial_globals;
  player_cell := player_cell initial_globals;
  worldspace_name := worldspace_name initial_globals
|}.

(** A memory in which the game time chain leads to the float [bits]. *)
Definition epoch_memory (bits : Z) : memory := {|
  load64 := fun a => if a =? sample_base + 0x1ec3bc8 then 0x20000000 else 0;
  load32 := fun a => if a =? 0x20000034 then bits else 0;
  c_str := fun _ => ""
|}.

(** A memory without a game time object: the first hop reads null. *)
Definition null_memory : memory := {|
  load64 := fun _ => 0;
  load32 := fun _ => 0;
  c_str := fun _ => ""
|}.

(** A memory with a player at the position [x], [y], [z] (bit patterns),
    in the world space and the cell whose objects are at [world] and
    [cell] (null when there is none) and are named "Tamriel" and
    "Whiterun". *)
Definition player_memory (x y z world cell : Z) : memory := {|
  load64 := fun a =>
    if a =? sample_base + 0x2f26ef8 then 0x30000000
    else if a =? 0x30000000 + 0x628 then world
    else if a =? 0x30000000 + 0x60 then cell
    else if a =? world + 0x28 then 0x40000000
    else if a =? cell + 0x28 then 0x40000100
    else 0;
  load32 := fun a =>
    if a =? 0x30000054 then x
    else if a =? 0x30000058 then y
    else if a =? 0x3000005c then z
    else 0;
  c_str := fun a =>
    if a =? 0x40000000 then "Tamriel"
    else if a =? 0x40000100 then "Whiterun"
    else ""
|}.

(** A chain whose root offset is zero, in a process whose image starts, as
    every image does, with the two letters of the DOS header. *)
Definition unwired_chain : relocation := {| N := 1; offsets := [0; 0x34] |}.

Definition image_memory : memory := {|
  load64 := fun a => if a =? sample_base then 0x0000000300905a4d else 0;
  load32 := fun _ => 0;
  c_str := fun _ => ""
|}.

(** An environment without the hook library. *)
Definition sample_environment : environment :=
  {| module_handle := sample_base; find_target := None |}.

(** A memory with a player at (1, 2, 3) whose world space is named
    "Tamriel %cn" and whose cell is named "Whiterun". *)
Definition escaped_memory : memory := {|
  load64 := load64 (player_memory 0x3F800000 0x40000000 0x40400000
                      0x31000000 0x32000000);
  load32 := load32 (player_memory 0x3F800000 0x40000000 0x40400000
                      0x31000000 0x32000000);
  c_str := fun a =>
    if a =? 0x40000000 then "Tamriel %cn"
    else if a =? 0x40000100 then "Whiterun"
    else ""
|}.

(** ** local_time (lines 173-190 and 278-284) *)

(** [std::tm]. *)
Record tm : Type := {
  tm_sec : Z; tm_min : Z; tm_hour : Z;
  tm_mday : Z; tm_mon : Z; tm_year : Z;
  tm_wday : Z; tm_yday : Z; tm_isdst : Z
}.

(** What [local_time] takes from the C library. [strftime format lt max buf]
    is the count that [std::strftime (&buf[0], max, format, &lt)] returns
    together with the buffer it leaves; [localtime_now] is the broken-down
    time [*std::localtime (&t)] of [t = std::time (nullptr)]. *)
Record ctime : Type := {
  strftime : string -> tm -> nat -> string -> nat * string;
  localtime_now : tm
}.

(** The contract of [strftime] in the C standard, [text] being the
    expansion of the format: when the text and its terminator fit into
    [max] characters the count is the length of the text, which the
    buffer then starts with; otherwise the count is zero and the content
    of the buffer is anything. *)
Definition strftime_contract (lib : ctime) (format : string) (lt : tm)
    (text : string) : Prop :=
  forall (max : nat) (buf : string),
    length buf = max ->
    length (snd (strftime lib format lt max buf)) = max
    /\ ((length text < max)%nat ->
        fst (strftime lib format lt max buf) = length text
        /\ Str.take (length text) (snd (strftime lib format lt max buf)) = text)
    /\ ((max <= length text)%nat ->
        fst (strftime lib format lt max buf) = O).

(** [s.resize (n)]: cut, or padded with zero characters. *)
Definition resize (s : string) (n : nat) : string :=
  Str.take n s ++ Str.repeat Ascii.zero (n - length s)%nat.

(** The [do ... while (n < 512)] loop of lines 178-188, entered with the
    string [s] and the size [n]; [None] says that [fuel] iterations did
    not suffice. *)
Fixpoint local_time_loop (fuel : nat) (lib : ctime) (format : string)
    (lt : tm) (s : string) (n : nat) : option string :=
  match fuel with
  | O => None
  | S fuel' =>
      let s := resize s (n - 1) in
      let '(r, s) := strftime lib format lt (n - 1)%nat s in
      if negb (r =? 0)%nat then Some (resize s r)
      else
        let n := (n * 2)%nat in
        if (n <? 512)%nat then local_time_loop fuel' lib format lt s n
        else Some s
  end.

(** [local_time (format, lt)]; the sizes 16, 32, 64, 128 and 256 are all the
    loop can try. *)
Definition local_time_tm (lib : ctime) (format : string) (lt : tm)
  : option string :=
  local_time_loop 5 lib format lt "" 16.

(** [local_time (format)]. *)
Definition local_time (lib : ctime) (format : string) : option string :=
  local_time_tm lib format (localtime_now lib).

(** A C library whose [strftime] expands every format to [text]. *)
Definition sample_ctime (text : string) : ctime := {|
  strftime := fun _ _ max buf =>
    if (length text <? max)%nat
    then (length text,
          text ++ String Ascii.zero (Str.drop (length text + 1) buf))
    else (O, buf);
  localtime_now := {| tm_sec := 0; tm_min := 30; tm_hour := 9; tm_mday := 17;
                      tm_mon := 7; tm_year := 126; tm_wday := 1;
                      tm_yday := 228; tm_isdst := 0 |}
|}.

(** ** Notions used to state further properties *)

(** Text without the character that starts an escape. *)
Fixpoint no_percent (s : string) : bool :=
  match s with
  | EmptyString => true
  | String c s' => negb (Ascii.eqb c "%"%char) && no_percent s'
  end.

(** No escape of the list longer than [tok] starts the text [tok ++ post]:
    the text that follows does not turn the escape into another one. *)
Definition longest_escape (tokens : list string) (tok post : string) : Prop :=
  forall tok', In tok' tokens ->
    Str.starts_with (tok ++ post) tok' = true ->
    (length tok' <= length tok)%nat.

(** What each escape of the game time is replaced by (lines 226-271; the
    help text of lines 314-329 names them). *)
Definition calendar_escape (source : spec_float) (c : calendar) (tok : string)
  : option string :=
  if (tok =? "%y")%string then Some (Int.to_string (cal_y c))
  else if (tok =? "%Y")%string then Some ("4E" ++ Int.to_string (cal_y c))
  else if (tok =? "%lm")%string then Some (nth (Z.to_nat (cal_mo c)) longmon "")
  else if (tok =? "%bm")%string then Some (nth (Z.to_nat (cal_mo c)) birtmon "")
  else if (tok =? "%am")%string then Some (nth (Z.to_nat (cal_mo c)) argomon "")
  else if (tok =? "%mo")%string then Some (Int.to_string (cal_mo c + 1))
  else if (tok =? "%md")%string then Some (Int.to_string (cal_md c))
  else if (tok =? "%sd")%string then Some (nth (Z.to_nat (cal_wd c)) shrtwday "")
  else if (tok =? "%ld")%string then Some (nth (Z.to_nat (cal_wd c)) longwday "")
  else if (tok =? "%wd")%string then Some (Int.to_string (cal_wd c + 1))
  else if (tok =? "%h")%string then Some (Int.to_string (cal_h c))
  else if (tok =? "%m")%string then Some (Int.to_string (cal_m c))
  else if (tok =? "%s")%string then Some (Int.to_string (cal_s c))
  else if (tok =? "%ri")%string then Some (Int.to_string (cal_d c))
  else if (tok =? "%r")%string then Some (F32.to_string source)
  else None.

(** What each escape of the player position is replaced by (lines
    153-166; the help text of lines 340-345 names them), [world] and
    [cell] being the two names (empty when absent). *)
Definition location_escape (p0 p1 p2 : spec_float) (world cell : string)
    (tok : string) : option string :=
  if (tok =? "%x")%string then Some (F32.snprintf_0f p0)
  else if (tok =? "%y")%string then Some (F32.snprintf_0f p1)
  else if (tok =? "%z")%string then Some (F32.snprintf_0f p2)
  else if (tok =? "%cx")%string then
    Some (Int.to_string (F32.to_int (F32.floor (F32.fdiv p0 (F32.of_int 4096)))))
  else if (tok =? "%cy")%string then
    Some (Int.to_string (F32.to_int (F32.floor (F32.fdiv p1 (F32.of_int 4096)))))
  else if (tok =? "%wn")%string then Some world
  else if (tok =? "%cn")%string then Some cell
  else None.

(** The name a chain of names resolves to, empty when it resolves to null. *)
Definition name_text (m : memory) (p : Z) : string :=
  if p =? 0 then "" else c_str m p.

(** The days of the months of the calendar, and the day count of a date
    given by year, month index and day of the month. *)
Definition month_days : list Z := [31; 28; 31; 30; 31; 30; 31; 31; 30; 31; 30; 31].

Definition days_before_month (mo : Z) : Z :=
  if mo =? 0 then 0 else nth (Z.to_nat mo - 1) months 0.

Definition day_count_of_date (y mo md : Z) : Z :=
  (y - 201) * 365 + days_before_month mo + md - 1.

(** ** Format strings written with escapes *)

(** A format string taken apart: texts, and escapes standing on their
    own. *)
Inductive item : Type :=
| Plain (s : string)
| Esc (tok : string).

(** The format string the items spell. *)
Fixpoint flatten (items : list item) : string :=
  match items with
  | [] => ""
  | Plain s :: items' => s ++ flatten items'
  | Esc tok :: items' => tok ++ flatten items'
  end.

(** The same with every escape replaced by its value. *)
Fixpoint expand (val : string -> string) (items : list item) : string :=
  match items with
  | [] => ""
  | Plain s :: items' => s ++ expand val items'
  | Esc tok :: items' => val tok ++ expand val items'
  end.

(** Items that spell a format string the plain way: the texts are not
    empty and hold no character %, the escapes are escapes of the
    formatter, and what follows an escape does not make a longer escape of
    it. *)
Fixpoint written_well (tokens : list string) (items : list item) : Prop :=
  match items with
  | [] => True
  | Plain s :: items' =>
      no_percent s = true /\ s <> "" /\ written_well tokens items'
  | Esc tok :: items' =>
      In tok tokens /\ longest_escape tokens tok (flatten items')
      /\ written_well tokens items'
  end.

(** The value of an escape of the game time, as a text. *)
Definition calendar_value (source : spec_float) (c : calendar) (tok : string)
  : string :=
  match calendar_escape source c tok with
  | Some s => s
  | None => ""
  end.

(** One substitution after the other, in the order of the list: the shape
    of lines 229-271. *)
Fixpoint run (val : string -> string) (todo : list string) (format : string)
  : outcome string :=
  match todo with
  | [] => Ok format
  | t :: todo' => bind (replace_all format t (val t)) (run val todo')
  end.

(** The effect of the substitution of one escape on the items. *)
Definition subst_item (val : string -> string) (t : string) (it : item) : item :=
  match it with
  | Plain s => Plain s
  | Esc e => if (e =? t)%string then Plain (val t) else Esc e
  end.

Definition pass (val : string -> string) (t : string) (items : list item)
  : list item :=
  map (subst_item val t) items.

(** Some escape of the list, longer than [e], starts the text
    [e ++ rest]. *)
Definition ext (tokens : list string) (e rest : string) : bool :=
  existsb (fun t => Str.starts_with (e ++ rest) t
                    && (length e <? length t)%nat) tokens.

(** The items on which the substitution of [t] finds [t] only where an
    item is that escape. *)
Fixpoint pass_ok (t : string) (items : list item) : Prop :=
  match items with
  | [] => True
  | Plain s :: items' => no_percent s = true /\ pass_ok t items'
  | Esc e :: items' =>
      (e = t
       \/ (Str.starts_with (e ++ flatten items') t = false
           /\ exists letters,
                e = String "%" letters /\ no_percent letters = true))
      /\ pass_ok t items'
  end.

(** The items while the escapes of [todo] are still to be substituted. *)
Fixpoint pending (tokens todo : list string) (items : list item) : Prop :=
  match items with
  | [] => True
  | Plain s :: items' =>
      no_percent s = true /\ s <> "" /\ pending tokens todo items'
  | Esc e :: items' =>
      In e todo /\ ext tokens e (flatten items') = false
      /\ pending tokens todo items'
  end.

(** A list of escapes in which none starts a later one: of two escapes
    with a common start the longer comes first. *)
Fixpoint longer_first (l : list string) : Prop :=
  match l with
  | [] => True
  | t :: l' =>
      (forall e, In e l' -> e <> t /\ Str.starts_with e t = false)
      /\ longer_first l'
  end.

(** The value of an escape of the player position, as a text. *)
Definition location_value (p0 p1 p2 : spec_float) (world cell : string)
    (tok : string) : string :=
  match location_escape p0 p1 p2 world cell tok with
  | Some s => s
  | None => ""
  end.

(** Items whose texts hold no character % and whose escapes are all among
    [todo]. *)
Fixpoint listed (todo : list string) (items : list item) : Prop :=
  match items with
  | [] => True
  | Plain s :: items' => no_percent s = true /\ listed todo items'
  | Esc e :: items' => In e todo /\ listed todo items'
  end.

(* ================================================================== *)
(** * Part II: properties                                              *)
(* ================================================================== *)

Local Open Scope nat_scope.

(** ** Strings *)

Module StrFacts.
Import Str.

Lemma append_nil_r (s : string) : s ++ "" = s.
Proof. induction s as [|c s IH]; simpl; [reflexivity | now rewrite IH]. Qed.

Lemma append_assoc (a b c : string) : (a ++ b) ++ c = a ++ b ++ c.
Proof. induction a as [|x a IH]; simpl; [reflexivity | now rewrite IH]. Qed.

Lemma length_append (a b : string) : length (a ++ b) = length a + length b.
Proof. induction a as [|x a IH]; simpl; [reflexivity | now rewrite IH]. Qed.

Lemma length_zero (s : string) : length s = 0 -> s = "".
Proof. destruct s; simpl; [reflexivity | discriminate]. Qed.

Lemma take_app (a b : string) : take (length a) (a ++ b) = a.
Proof. induction a as [|x a IH]; simpl; [now destruct b | now rewrite IH]. Qed.

Lemma drop_app (a b : string) : drop (length a) (a ++ b) = b.
Proof. induction a as [|x a IH]; simpl; [now destruct b | exact IH]. Qed.

Lemma length_take (n : nat) (s : string) : length (take n s) = Nat.min n (length s).
Proof.
  revert s; induction n as [|n IH]; intros [|c s]; simpl; try reflexivity.
  now rewrite IH.
Qed.

Lemma length_drop (n : nat) (s : string) : length (drop n s) = length s - n.
Proof.
  revert s; induction n as [|n IH]; intros [|c s]; simpl; try reflexivity.
  apply IH.
Qed.

Lemma append_inj (a a' b b' : string) :
  a ++ b = a' ++ b' -> length a = length a' -> a = a' /\ b = b'.
Proof.
  revert a'; induction a as [|x a IH]; intros [|x' a'] E L; simpl in *;
    try discriminate; [now split|].
  injection E as -> E. injection L as L.
  destruct (IH _ E L) as [-> ->]. now split.
Qed.

Lemma starts_with_iff (s t : string) :
  starts_with s t = true <-> exists post, s = t ++ post.
Proof.
  revert s; induction t as [|b t IH]; intros s; simpl.
  - split; [intros _; now exists s | reflexivity].
  - destruct s as [|a s].
    + split; [discriminate | intros [post E]; discriminate].
    + rewrite andb_true_iff, IH. split.
      * intros [E [post ->]]. apply Ascii.eqb_eq in E as ->. now exists post.
      * intros [post E]. injection E as -> ->. split;
          [apply Ascii.eqb_refl | now exists post].
Qed.

Lemma occurs_zero (t s : string) : occurs t s 0 <-> starts_with s t = true.
Proof.
  rewrite starts_with_iff. split.
  - intros (pre & post & -> & L). apply length_zero in L as ->. now exists post.
  - intros [post ->]. now exists "", post.
Qed.

Lemma occurs_succ (t : string) (c : ascii) (s : string) (k : nat) :
  occurs t (String c s) (S k) <-> occurs t s k.
Proof.
  split.
  - intros (pre & post & E & L). destruct pre as [|x pre]; [discriminate|].
    simpl in E, L. injection E as -> ->. injection L as L. now exists pre, post.
  - intros (pre & post & -> & L). exists (String c pre), post. simpl. now rewrite L.
Qed.

Lemma occurs_bound (t s : string) (k : nat) :
  occurs t s k -> k + length t <= length s.
Proof.
  intros (pre & post & -> & <-). rewrite !length_append. lia.
Qed.

(** [find0] returns the first occurrence. *)
Lemma find0_spec (s t : string) :
  match find0 s t with
  | Some k => occurs t s k /\ forall j, j < k -> ~ occurs t s j
  | None => forall k, ~ occurs t s k
  end.
Proof.
  induction s as [|c s IH]; simpl find0.
  - destruct (starts_with "" t) eqn:E.
    + split; [now apply occurs_zero | intros j Hj; lia].
    + intros k H. pose proof (occurs_bound _ _ _ H) as B. simpl in B.
      assert (k = 0) as -> by lia. apply occurs_zero in H. congruence.
  - destruct (starts_with (String c s) t) eqn:E.
    + split; [now apply occurs_zero | intros j Hj; lia].
    + destruct (find0 s t) as [k|]; simpl.
      * destruct IH as [Hk Hmin]. split; [now apply occurs_succ|].
        intros [|j] Hj H.
        -- apply occurs_zero in H. congruence.
        -- apply occurs_succ in H. apply (Hmin j); [lia | exact H].
      * intros [|k] H.
        -- apply occurs_zero in H. congruence.
        -- apply occurs_succ in H. exact (IH k H).
Qed.

Lemma find0_none (s t : string) :
  (forall k, ~ occurs t s k) -> find0 s t = None.
Proof.
  intros H. pose proof (find0_spec s t) as F.
  destruct (find0 s t) as [k|]; [|reflexivity].
  destruct F as [F _]. now apply H in F.
Qed.

(** Scanning from the end of a prefix only sees what follows it. *)
Lemma find_after (done rest t : string) :
  find (done ++ rest) t (length done)
  = option_map (Nat.add (length done)) (find0 rest t).
Proof.
  unfold find. rewrite drop_app.
  destruct (length done <=? length (done ++ rest)) eqn:E; [reflexivity|].
  apply Nat.leb_gt in E. rewrite length_append in E. lia.
Qed.

Lemma find_from_start (s t : string) : find s t 0 = find0 s t.
Proof.
  unfold find. simpl. now destruct (find0 s t).
Qed.

(** A position returned by [find] is one [replace] accepts. *)
Lemma find_bound (s t : string) (pos n : nat) :
  find s t pos = Some n -> n + length t <= length s.
Proof.
  unfold find. destruct (pos <=? length s) eqn:E; [|discriminate].
  apply Nat.leb_le in E.
  pose proof (find0_spec (drop pos s) t) as F.
  destruct (find0 (drop pos s) t) as [k|]; [|discriminate].
  intros [= <-]. destruct F as [F _]. apply occurs_bound in F.
  rewrite length_drop in F. lia.
Qed.

(** Replacing the occurrence that follows [pre]. *)
Lemma replace_at (pre t post r : string) :
  replace (pre ++ t ++ post) (length pre) (length t) r = pre ++ r ++ post.
Proof.
  unfold replace. rewrite take_app. f_equal. f_equal.
  rewrite <- length_append, <- append_assoc. apply drop_app.
Qed.

End StrFacts.

(** ** replace_all: termination and result *)

Section ReplaceAll.
Import Str StrFacts.

Variables search repl : string.

Lemma replace_loop_npos (fuel : nat) (data : string) :
  replace_loop fuel data search repl None = Some data.
Proof. now destruct fuel. Qed.

(** The loop, resumed behind the text [done] that is final, rewrites
    what is left according to [Subst]; the length of the rest bounds the
    iterations when the token is not empty. *)
Lemma replace_loop_rest (fuel : nat) :
  search <> "" ->
  forall rest done,
    length rest <= fuel ->
    exists out,
      replace_loop fuel (done ++ rest) search repl
        (find (done ++ rest) search (length done)) = Some (done ++ out)
      /\ Subst search repl rest out.
Proof.
  intros Hne. induction fuel as [|fuel IH]; intros rest done Hlen;
    rewrite find_after; pose proof (find0_spec rest search) as F;
    destruct (find0 rest search) as [k|]; simpl.
  - destruct F as [F _]. apply occurs_bound in F.
    destruct search; [congruence | simpl in F; lia].
  - exists rest. split; [reflexivity | now constructor].
  - destruct F as [(pre & post & -> & <-) Hmin].
    rewrite <- (append_assoc done pre), <- length_append, replace_at.
    rewrite <- (append_assoc (done ++ pre) repl post), <- length_append.
    destruct (IH post ((done ++ pre) ++ repl)) as (out & E & HS).
    { rewrite !length_append in Hlen.
      destruct search; [congruence | simpl in Hlen; lia]. }
    exists (pre ++ repl ++ out). split.
    + rewrite E. f_equal. now rewrite !append_assoc.
    + now constructor.
  - exists rest. split; [reflexivity | now constructor].
Qed.

Lemma replace_all_subst (data : string) :
  search <> "" ->
  exists out, replace_all data search repl = Ok out /\ Subst search repl data out.
Proof.
  intros Hne.
  destruct (replace_loop_rest (length data) Hne data "" (le_n _))
    as (out & E & HS).
  exists out. split; [|exact HS].
  unfold replace_all. simpl in E. now rewrite E.
Qed.

(** [Subst] determines its result. *)
Lemma Subst_functional (s o1 o2 : string) :
  Subst search repl s o1 -> Subst search repl s o2 -> o1 = o2.
Proof.
  intros H1; revert o2.
  induction H1 as [s Hno | pre post out Hmin H1 IH]; intros o2 H2.
  - inversion H2 as [s' Hno' | pre' post' out' Hmin' H2' E]; subst;
      [reflexivity|].
    exfalso. apply (Hno (length pre')). now exists pre', post'.
  - remember (pre ++ search ++ post) as s eqn:Es.
    destruct H2 as [s Hno | pre' post' out' Hmin' H2'].
    + exfalso. apply (Hno (length pre)). now exists pre, post.
    + assert (length pre = length pre') as L.
      { destruct (Nat.lt_trichotomy (length pre) (length pre')) as [L|[L|L]];
          [exfalso | exact L | exfalso].
        - apply (Hmin' _ L). exists pre, post. now split.
        - apply (Hmin _ L). now exists pre', post'. }
      destruct (append_inj _ _ _ _ Es (eq_sym L)) as [-> E].
      destruct (append_inj _ _ _ _ E eq_refl) as [_ ->].
      now rewrite (IH _ H2').
Qed.

(** Without an occurrence of the token nothing changes. *)
Lemma replace_all_absent (data : string) :
  (forall k, ~ occurs search data k) -> replace_all data search repl = Ok data.
Proof.
  intros Hno. unfold replace_all.
  now rewrite find_from_start, (find0_none _ _ Hno), replace_loop_npos.
Qed.

Lemma replace_all_nil :
  search <> "" -> replace_all "" search repl = Ok "".
Proof.
  intros Hne. apply replace_all_absent. intros k H.
  apply occurs_bound in H. destruct search; [congruence | simpl in H; lia].
Qed.

(** With the empty token the loop is entered and never left. *)
Lemma replace_loop_empty_token (fuel : nat) :
  search = "" ->
  forall data n, n <= length data ->
    replace_loop fuel data search repl (Some n) = None.
Proof.
  intros ->. induction fuel as [|fuel IH]; intros data n Hn; simpl;
    [reflexivity|].
  set (data' := replace data n 0 repl).
  assert (n + length repl <= length data') as Hn'.
  { unfold data', replace. rewrite !length_append, length_take, length_drop. lia. }
  unfold find. apply Nat.leb_le in Hn' as E. rewrite E.
  assert (find0 (drop (n + length repl) data') "" = Some 0) as ->
    by now destruct (drop (n + length repl) data').
  simpl. apply IH. lia.
Qed.

(** [replace_all] is [Diverges] for the empty token and for no other. *)
Lemma replace_all_diverges_iff (data : string) :
  replace_all data search repl = Diverges <-> search = "".
Proof.
  split.
  - intros H. destruct search as [|c t] eqn:Es; [reflexivity|].
    destruct (replace_all_subst data) as (out & E & _); [rewrite Es; discriminate|].
    rewrite Es in E. congruence.
  - intros Es. unfold replace_all. rewrite find_from_start.
    assert (find0 data search = Some 0) as -> by (rewrite Es; now destruct data).
    rewrite replace_loop_empty_token; [reflexivity | exact Es | lia].
Qed.

End ReplaceAll.

(** ** relocation::obtain *)

Section Obtain.

Variable m : memory.
Variable base : Z.
Variable r : relocation.

Local Abbreviation cur := (cursor m base r).
Local Abbreviation hop := (hop_address m base r).

(** All the hops left succeed: the loop ends with the cursor after them. *)
Lemma obtain_loop_through (count i : nat) :
  (forall j, i <= j < i + count -> cur (S j) <> 0%Z) ->
  obtain_loop m r count i (cur i) = (Some (cur (i + count)), map hop (seq i count)).
Proof.
  revert i; induction count as [|count IH]; intros i H; simpl.
  - now rewrite Nat.add_0_r.
  - change (deref m (addp (cur i) (offset r i))) with (cur (S i)).
    destruct (Z.eqb_spec (cur (S i)) 0) as [E|_].
    + exfalso. apply (H i); [lia | exact E].
    + rewrite IH by (intros j Hj; apply H; lia).
      now rewrite Nat.add_succ_r.
Qed.

(** The first null is read at hop [k]: the loop returns there. *)
Lemma obtain_loop_null (count i k : nat) :
  i <= k < i + count ->
  (forall j, i <= j < k -> cur (S j) <> 0%Z) ->
  cur (S k) = 0%Z ->
  obtain_loop m r count i (cur i) = (None, map hop (seq i (S k - i))).
Proof.
  revert i; induction count as [|count IH]; intros i Hk Hnz Hz; [lia|].
  cbn [obtain_loop].
  change (deref m (addp (cur i) (offset r i))) with (cur (S i)).
  destruct (Z.eqb_spec (cur (S i)) 0) as [E|NE].
  - destruct (Nat.eq_dec i k) as [->|Hik].
    + replace (S k - k) with 1 by lia. reflexivity.
    + exfalso. apply (Hnz i); [lia | exact E].
  - destruct (Nat.eq_dec i k) as [->|Hik]; [congruence|].
    rewrite IH by (try lia; try assumption; intros j Hj; apply Hnz; lia).
    replace (S k - i) with (S (S k - S i)) by lia. reflexivity.
Qed.

(** With at least one hop the first read is at [base + offsets[0]],
    whatever the offsets are. *)
Lemma obtain_first_read (n : nat) :
  N r = S n ->
  exists log, snd (obtain_traced base m r) = addp base (offset r 0) :: log.
Proof.
  intros E. unfold obtain_traced. rewrite E. simpl.
  destruct (deref m (addp base (offset r 0)) =? 0)%Z; [now exists []|].
  destruct (obtain_loop m r n 1 _) as [[that|] log]; now exists log.
Qed.

End Obtain.

(** ** make_variables *)

Section Catalog.

Variable env : environment.
Variable g : globals.

Lemma make_variables_game_time :
  In gtime (snd (make_variables env g))
  <-> offset (game_epoch (fst (make_variables env g))) 0 <> 0%Z.
Proof.
  unfold make_variables; cbn [fst snd].
  set (g' := wire_globals env g).
  destruct (Z.eqb_spec (offset (game_epoch g') 0) 0) as [E|E];
    destruct (offset (player_pos g') 0 =? 0)%Z; cbn;
    split; intros H; try tauto; try congruence;
    repeat (destruct H as [H|H]; try discriminate H; try tauto).
Qed.

Lemma make_variables_player_position :
  In ppos (snd (make_variables env g))
  <-> offset (player_pos (fst (make_variables env g))) 0 <> 0%Z.
Proof.
  unfold make_variables; cbn [fst snd].
  set (g' := wire_globals env g).
  destruct (Z.eqb_spec (offset (player_pos g') 0) 0) as [E|E];
    destruct (offset (game_epoch g') 0 =? 0)%Z; cbn;
    split; intros H; try tauto; try congruence;
    repeat (destruct H as [H|H]; try discriminate H; try tauto).
Qed.

Lemma make_variables_local_time : In ltime (snd (make_variables env g)).
Proof.
  unfold make_variables; cbn [fst snd].
  repeat match goal with |- context [if ?b then _ else _] => destruct b end;
    cbn; tauto.
Qed.

(** The catalog holds nothing but the three built-in variables. *)
Lemma make_variables_members (v : variable_t) :
  In v (snd (make_variables env g)) -> v = gtime \/ v = ppos \/ v = ltime.
Proof.
  unfold make_variables; cbn [fst snd].
  repeat match goal with |- context [if ?b then _ else _] => destruct b end;
    cbn; intuition auto.
Qed.

(** The two game variables render through their formatters, with the
    format string of the variable. *)
Lemma render_bound (m : memory) :
  render g m gtime = Some (game_time g m "%h:%m %ld, day %md of %lm, %Y")
  /\ render g m ppos = Some (player_location g m "%wn, %cn: %x %y %z")
  /\ render g m ltime = None.
Proof. repeat split. Qed.

End Catalog.

(** Lines 304-305 give the chains of the world name and of the cell name
    the root of the position chain; without [find_target] the three keep
    their initial roots, which are one constant. *)
Lemma initial_roots_shared (env : environment) :
  offset (worldspace_name (fst (make_variables env initial_globals))) 0
  = offset (player_pos (fst (make_variables env initial_globals))) 0
  /\ offset (player_cell (fst (make_variables env initial_globals))) 0
     = offset (player_pos (fst (make_variables env initial_globals))) 0.
Proof.
  unfold make_variables, wire_globals. cbn [fst].
  destruct (find_target env); split; reflexivity.
Qed.

(** ** The calendar arithmetic *)

Local Open Scope Z_scope.

Lemma wrap_in_range (z : Z) :
  Int.INT_MIN <= z <= Int.INT_MAX -> Int.wrap z = z.
Proof.
  unfold Int.wrap, Int.INT_MIN, Int.INT_MAX.
  change (2 ^ 31) with 2147483648. change (2 ^ 32) with 4294967296.
  intros H. rewrite Z.mod_small; lia.
Qed.

(** [lower_bound] meets the contract of [std::lower_bound]: the entries
    before the index are less than [v], the entry at the index is not. *)
Lemma lower_bound_spec (table : list Z) (v : Z) :
  (lower_bound table v <= List.length table)%nat
  /\ (forall i, (i < lower_bound table v)%nat -> nth i table 0 < v)
  /\ ((lower_bound table v < List.length table)%nat ->
      v <= nth (lower_bound table v) table 0).
Proof.
  induction table as [|x table IH]; cbn [lower_bound List.length].
  - repeat split; intros; lia.
  - destruct (Z.ltb_spec x v) as [Hlt|Hge].
    + destruct IH as (Hlen & Hbefore & Hat). repeat split.
      * lia.
      * intros [|i] Hi; cbn [nth]; [exact Hlt | apply Hbefore; lia].
      * intros H. cbn [nth]. apply Hat. lia.
    + repeat split; intros; cbn [nth]; lia.
Qed.

Lemma month_of_bounds (yd : Z) :
  1 <= yd <= 365 ->
  0 <= fst (month_of yd) <= 11 /\ 1 <= snd (month_of yd) <= 31.
Proof.
  intros H. unfold month_of, months. cbn [lower_bound].
  repeat match goal with
         | |- context [?a <? yd] =>
             destruct (Z.ltb_spec a yd); cbn [fst snd Z.of_nat Z.eqb nth Nat.sub]
         end; cbn; lia.
Qed.

Section Calendar.

Variable v : spec_float.

(** The day count neither fails to convert nor overflows [int] in
    [d + 3]. *)
Hypothesis day_fits : 0 <= F32.to_int v <= Int.INT_MAX - 231.

Lemma compute_calendar_fields :
  cal_d (compute_calendar v) = F32.to_int v + 228
  /\ cal_y (compute_calendar v) = (F32.to_int v + 228) / 365 + 201
  /\ cal_yd (compute_calendar v) = (F32.to_int v + 228) mod 365 + 1
  /\ cal_wd (compute_calendar v) = (F32.to_int v + 231) mod 7
  /\ cal_mo (compute_calendar v) = fst (month_of (cal_yd (compute_calendar v)))
  /\ cal_md (compute_calendar v) = snd (month_of (cal_yd (compute_calendar v))).
Proof.
  unfold Int.INT_MAX in day_fits. change (2 ^ 31) with 2147483648 in day_fits.
  unfold compute_calendar.
  set (i := F32.to_int v) in *.
  assert (Int.wrap (i + 228) = i + 228) as Ed
    by (apply wrap_in_range; unfold Int.INT_MIN, Int.INT_MAX;
        change (2 ^ 31) with 2147483648; lia).
  rewrite Ed.
  assert (Z.rem (i + 228) 365 = (i + 228) mod 365) as Er
    by (apply Z.rem_mod_nonneg; lia).
  assert (Z.quot (i + 228) 365 = (i + 228) / 365) as Eq
    by (apply Z.quot_div_nonneg; lia).
  rewrite Er, Eq.
  pose proof (Z.mod_pos_bound (i + 228) 365 eq_refl) as Byd.
  assert (0 <= (i + 228) / 365 <= 5883517) as By.
  { split; [apply Z.div_pos; lia|]. apply Z.div_le_upper_bound; lia. }
  rewrite !wrap_in_range
    by (unfold Int.INT_MIN, Int.INT_MAX; change (2 ^ 31) with 2147483648; lia).
  replace (i + 228 + 3) with (i + 231) by lia.
  rewrite Z.rem_mod_nonneg by lia.
  destruct (month_of ((i + 228) mod 365 + 1)) as [mo md] eqn:Em.
  cbn [cal_d cal_y cal_yd cal_wd cal_mo cal_md]. rewrite Em.
  repeat split; reflexivity.
Qed.

(** Inside the range every table index is one of the table. *)
Lemma compute_calendar_bounds :
  1 <= cal_yd (compute_calendar v) <= 365
  /\ 0 <= cal_mo (compute_calendar v) <= 11
  /\ 1 <= cal_md (compute_calendar v) <= 31
  /\ 0 <= cal_wd (compute_calendar v) <= 6.
Proof.
  destruct compute_calendar_fields as (_ & _ & Eyd & Ewd & Emo & Emd).
  assert (1 <= cal_yd (compute_calendar v) <= 365) as Hyd.
  { rewrite Eyd. pose proof (Z.mod_pos_bound (F32.to_int v + 228) 365 eq_refl). lia. }
  pose proof (month_of_bounds _ Hyd) as [Hmo Hmd].
  rewrite Emo, Emd, Ewd.
  pose proof (Z.mod_pos_bound (F32.to_int v + 231) 7 eq_refl). lia.
Qed.

End Calendar.

Lemma at_in_bounds (table : list string) (i : Z) :
  0 <= i < Z.of_nat (List.length table) ->
  at_ table i = Ok (nth (Z.to_nat i) table "").
Proof.
  intros H. unfold at_.
  destruct (Z.leb_spec 0 i); [|lia]. destruct (Z.ltb_spec i (Z.of_nat (List.length table))); [|lia].
  reflexivity.
Qed.

Lemma at_out_of_bounds (table : list string) (i : Z) :
  i < 0 \/ Z.of_nat (List.length table) <= i -> at_ table i = OutOfBounds.
Proof.
  intros H. unfold at_.
  destruct (Z.leb_spec 0 i); destruct (Z.ltb_spec i (Z.of_nat (List.length table)));
    try reflexivity; lia.
Qed.

(** ** The formatters *)

Ltac token_absent H :=
  rewrite replace_all_absent by (apply H; cbn; tauto); cbn [bind].

Ltac token_replaced :=
  match goal with
  | |- context [replace_all ?data ?tok ?repl] =>
      let out := fresh "format" in
      let E := fresh "E" in
      destruct (replace_all_subst tok repl data) as (out & E & _);
      [discriminate | rewrite E; clear E; cbn [bind]]
  end.

Lemma free_of_check (tokens : list string) (format : string) :
  holds_none tokens format = true -> free_of tokens format.
Proof.
  unfold holds_none. rewrite forallb_forall. intros H tok Hin k Hocc.
  specialize (H tok Hin). pose proof (StrFacts.find0_spec format tok) as F.
  destruct (Str.find0 format tok); [discriminate | exact (F k Hocc)].
Qed.

Section Formatters.

Variable g : globals.
Variable m : memory.

Lemma substitute_calendar_identity (v : spec_float) (format : string) :
  0 <= F32.to_int v <= Int.INT_MAX - 231 ->
  free_of calendar_tokens format ->
  substitute_calendar v (compute_calendar v) format = Ok format.
Proof.
  intros Hfit Hfree.
  destruct (compute_calendar_bounds v Hfit) as (_ & Hmo & _ & Hwd).
  unfold substitute_calendar.
  rewrite (at_in_bounds longmon), (at_in_bounds birtmon), (at_in_bounds argomon),
    (at_in_bounds shrtwday), (at_in_bounds longwday)
    by (unfold longmon, birtmon, argomon, shrtwday, longwday;
        cbn [List.length]; lia).
  repeat token_absent Hfree. reflexivity.
Qed.

(** Inside the range the substitutions run to their end. *)
Lemma substitute_calendar_total (v : spec_float) (format : string) :
  0 <= F32.to_int v <= Int.INT_MAX - 231 ->
  exists out, substitute_calendar v (compute_calendar v) format = Ok out.
Proof.
  intros Hfit.
  destruct (compute_calendar_bounds v Hfit) as (_ & Hmo & _ & Hwd).
  unfold substitute_calendar.
  rewrite (at_in_bounds longmon), (at_in_bounds birtmon), (at_in_bounds argomon),
    (at_in_bounds shrtwday), (at_in_bounds longwday)
    by (unfold longmon, birtmon, argomon, shrtwday, longwday;
        cbn [List.length]; lia).
  cbn [bind]. repeat token_replaced. eexists; reflexivity.
Qed.

Lemma substitute_coordinates_identity (p0 p1 p2 : spec_float) (format : string) :
  free_of location_tokens format ->
  substitute_coordinates p0 p1 p2 format = Ok format.
Proof.
  intros Hfree. unfold substitute_coordinates.
  repeat token_absent Hfree. reflexivity.
Qed.

Lemma substitute_coordinates_total (p0 p1 p2 : spec_float) (format : string) :
  exists out, substitute_coordinates p0 p1 p2 format = Ok out.
Proof.
  unfold substitute_coordinates. repeat token_replaced. eexists; reflexivity.
Qed.

Lemma substitute_names_identity (world cell : Z) (format : string) :
  free_of location_tokens format ->
  substitute_names world cell m format = Ok format.
Proof.
  intros Hfree. unfold substitute_names.
  destruct (world =? 0); destruct (cell =? 0);
    repeat token_absent Hfree; reflexivity.
Qed.

(** An absent name is substituted like the empty text. *)
Lemma substitute_names_text (world cell : Z) (format : string) :
  substitute_names world cell m format
  = bind (replace_all format "%wn" (if world =? 0 then "" else c_str m world))
      (fun format =>
         replace_all format "%cn" (if cell =? 0 then "" else c_str m cell)).
Proof.
  unfold substitute_names.
  destruct (world =? 0); destruct (cell =? 0);
    (destruct (replace_all format "%wn" _) as [f| |]; cbn [bind];
     [destruct (replace_all f "%cn" _) | |]; reflexivity).
Qed.

(** The empty format string is never rendered as the sentinel. *)
Lemma substitute_calendar_nil (v : spec_float) (c : calendar) :
  substitute_calendar v c "" <> Ok "(n/a)".
Proof.
  unfold substitute_calendar.
  repeat first
    [ rewrite replace_all_nil by discriminate; cbn [bind]
    | match goal with
      | |- context [at_ ?t ?i] =>
          destruct (at_ t i); cbn [bind]; try discriminate
      end ].
Qed.

(** The guard of [game_time]. *)
Lemma game_time_rejected (format : string) :
  obtain (skyrim_base g) m (game_epoch g) = 0
  \/ epoch_rejected (load_float m (obtain (skyrim_base g) m (game_epoch g))) = true ->
  game_time g m format = Ok "(n/a)".
Proof.
  unfold game_time. intros [->|H]; [reflexivity|].
  destruct (_ =? 0); [reflexivity | now rewrite H].
Qed.

Lemma game_time_accepted (format : string) :
  obtain (skyrim_base g) m (game_epoch g) <> 0 ->
  epoch_rejected (load_float m (obtain (skyrim_base g) m (game_epoch g))) = false ->
  game_time g m format
  = substitute_calendar
      (load_float m (obtain (skyrim_base g) m (game_epoch g)))
      (compute_calendar (load_float m (obtain (skyrim_base g) m (game_epoch g))))
      format.
Proof.
  unfold game_time. intros Hp Hv.
  destruct (Z.eqb_spec (obtain (skyrim_base g) m (game_epoch g)) 0);
    [contradiction | now rewrite Hv].
Qed.

(** The sentinel for every format string tells that the guard fired. *)
Lemma game_time_sentinel_iff :
  (forall format, game_time g m format = Ok "(n/a)")
  <-> (obtain (skyrim_base g) m (game_epoch g) = 0
       \/ epoch_rejected
            (load_float m (obtain (skyrim_base g) m (game_epoch g))) = true).
Proof.
  split; [|intros H format; now apply game_time_rejected].
  intros H. specialize (H "").
  destruct (Z.eq_dec (obtain (skyrim_base g) m (game_epoch g)) 0) as [E|NE];
    [now left | right].
  destruct (epoch_rejected _) eqn:Hv; [reflexivity | exfalso].
  rewrite (game_time_accepted "" NE Hv) in H.
  exact (substitute_calendar_nil _ _ H).
Qed.

End Formatters.

Section Location.

Variable g : globals.
Variable m : memory.

Local Abbreviation pos := (obtain (skyrim_base g) m (player_pos g)).
Local Abbreviation world := (obtain (skyrim_base g) m (worldspace_name g)).
Local Abbreviation cell := (obtain (skyrim_base g) m (player_cell g)).

Lemma player_location_rejected (format : string) :
  pos = 0
  \/ F32.isfinite (load_float m pos) = false
  \/ F32.isfinite (load_float m (addp pos 4)) = false
  \/ F32.isfinite (load_float m (addp pos 8)) = false ->
  player_location g m format = Ok "(n/a)".
Proof.
  unfold player_location. intros [->|H]; [reflexivity|].
  destruct (_ =? 0); [reflexivity|].
  destruct H as [-> | [-> | ->]]; cbn [negb orb];
    rewrite ?orb_true_r; reflexivity.
Qed.

Lemma player_location_accepted (format : string) :
  pos <> 0 ->
  F32.isfinite (load_float m pos) = true ->
  F32.isfinite (load_float m (addp pos 4)) = true ->
  F32.isfinite (load_float m (addp pos 8)) = true ->
  player_location g m format
  = bind (substitute_coordinates (load_float m pos) (load_float m (addp pos 4))
            (load_float m (addp pos 8)) format)
      (substitute_names world cell m).
Proof.
  unfold player_location. intros Hp -> -> ->.
  destruct (Z.eqb_spec pos 0); [contradiction | reflexivity].
Qed.

End Location.

(** The sample game time memory holds what it is built for. *)
Lemma game_time_sample (bits : Z) (format : string) :
  0 <= bits < 2 ^ 32 ->
  game_time sample_globals (epoch_memory bits) format
  = if epoch_rejected (F32.of_bits bits) then Ok "(n/a)"
    else substitute_calendar (F32.of_bits bits)
           (compute_calendar (F32.of_bits bits)) format.
Proof.
  intros H. unfold game_time.
  change (obtain (skyrim_base sample_globals) (epoch_memory bits)
            (game_epoch sample_globals)) with 0x20000034.
  change (load_float (epoch_memory bits) 0x20000034)
    with (F32.of_bits (bits mod 2 ^ 32)).
  now rewrite Z.mod_small.
Qed.

Ltac table_lookup :=
  match goal with
  | |- context [at_ ?t ?i] =>
      let r := eval vm_compute in (at_ t i) in
      change (at_ t i) with r; cbn [bind]
  end.

(* ================================================================== *)
(** * Part III: the specification's statements                         *)
(* ================================================================== *)

(** ** The chained pointer resolver *)

(** C1: [obtain] starts with the cursor at the base address and, hop
    after hop, sets it to the pointer-sized value read at cursor plus
    offset; when that value is null at hop [k] it returns null having read
    the hops up to [k] and no later one, and when no hop reads null it
    returns the last cursor plus the last offset, reading nothing more than
    the [N] hops. *)
Theorem obtain_follows_chain (m : memory) (base : Z) (r : relocation) :
  cursor m base r 0 = base
  /\ (forall i, cursor m base r (S i)
                = deref m (addp (cursor m base r i) (offset r i)))
  /\ (forall k,
        (k < N r)%nat ->
        (forall j, (j < k)%nat -> cursor m base r (S j) <> 0) ->
        cursor m base r (S k) = 0 ->
        obtain_traced base m r
        = (0, map (hop_address m base r) (seq 0 (S k))))
  /\ ((forall j, (j < N r)%nat -> cursor m base r (S j) <> 0) ->
      obtain_traced base m r
      = (addp (cursor m base r (N r)) (offset r (N r)),
         map (hop_address m base r) (seq 0 (N r)))).
Proof.
  split; [reflexivity|]. split; [reflexivity|]. split.
  - intros k Hk Hnz Hz. unfold obtain_traced.
    change base with (cursor m base r 0) at 1.
    rewrite (obtain_loop_null m base r (N r) 0 k) by
      (try lia; try assumption; intros j Hj; apply Hnz; lia).
    now rewrite Nat.sub_0_r.
  - intros Hnz. unfold obtain_traced.
    change base with (cursor m base r 0) at 1.
    rewrite obtain_loop_through by (intros j Hj; apply Hnz; lia).
    reflexivity.
Qed.

Lemma obtain_follows_chain_witness :
  obtain_traced sample_base null_memory (game_epoch sample_globals)
  = (0, map (hop_address null_memory sample_base (game_epoch sample_globals))
          (seq 0 1))
  /\ obtain_traced sample_base (epoch_memory 0) (game_epoch sample_globals)
     = (addp (cursor (epoch_memory 0) sample_base (game_epoch sample_globals) 1)
          (offset (game_epoch sample_globals) 1),
        map (hop_address (epoch_memory 0) sample_base (game_epoch sample_globals))
          (seq 0 1)).
Proof.
  split.
  - apply (proj1 (proj2 (proj2
      (obtain_follows_chain null_memory sample_base (game_epoch sample_globals))))
      0%nat).
    + cbn; lia.
    + intros j Hj; lia.
    + reflexivity.
  - apply (proj2 (proj2 (proj2
      (obtain_follows_chain (epoch_memory 0) sample_base
         (game_epoch sample_globals))))).
    intros [|j] Hj; [vm_compute; discriminate | cbn in Hj; lia].
Defined.

(** C7, as stated, fails: [obtain] does not look at the root offset; with
    the root offset 0 it reads at the base address and goes on. *)
Lemma obtain_reads_unwired_chain :
  ~ (forall base m r, offset r 0 = 0 -> obtain_traced base m r = (0, [])).
Proof.
  intros H. specialize (H sample_base image_memory unwired_chain eq_refl).
  vm_compute in H. discriminate H.
Qed.

(** C7, amended: the catalog builder is what keeps an unwired chain from
    being read. [obtain] itself, when it has a hop to make, reads first at
    base plus root offset whatever that offset is. A formatter is in the
    catalog only when the root offset of its chain is not zero after the
    wiring: the game time for [game_epoch], the player position for
    [player_pos]. The other two chains that [player_location] resolves,
    [worldspace_name] and [player_cell], leave the wiring of the initial
    offsets with the root of [player_pos], with any [find_target] or none;
    so in the catalog the program builds, every chain a formatter resolves
    has a root offset that is not zero. *)
Theorem unwired_chain_is_not_rendered (env : environment) (g : globals) :
  (In gtime (snd (make_variables env g))
   <-> offset (game_epoch (fst (make_variables env g))) 0 <> 0)
  /\ (In ppos (snd (make_variables env g))
      <-> offset (player_pos (fst (make_variables env g))) 0 <> 0)
  /\ (forall v, In v (snd (make_variables env g)) ->
        (apply v = render_game_time ->
         offset (game_epoch (fst (make_variables env g))) 0 <> 0)
        /\ (apply v = render_player_location ->
            offset (player_pos (fst (make_variables env g))) 0 <> 0))
  /\ (forall v, In v (snd (make_variables env initial_globals)) ->
        (apply v = render_game_time ->
         offset (game_epoch (fst (make_variables env initial_globals))) 0 <> 0)
        /\ (apply v = render_player_location ->
            offset (player_pos (fst (make_variables env initial_globals))) 0 <> 0
            /\ offset (worldspace_name (fst (make_variables env initial_globals))) 0
               <> 0
            /\ offset (player_cell (fst (make_variables env initial_globals))) 0
               <> 0))
  /\ (forall base m r n,
        N r = S n ->
        exists log, snd (obtain_traced base m r) = addp base (offset r 0) :: log).
Proof.
  assert (forall g0 v, In v (snd (make_variables env g0)) ->
            (apply v = render_game_time ->
             offset (game_epoch (fst (make_variables env g0))) 0 <> 0)
            /\ (apply v = render_player_location ->
                offset (player_pos (fst (make_variables env g0))) 0 <> 0))
    as Hgate.
  { intros g0 v Hv.
    destruct (make_variables_members env g0 v Hv) as [-> | [-> | ->]];
      (split; intros Ha; try discriminate Ha).
    - now apply make_variables_game_time.
    - now apply make_variables_player_position. }
  split; [apply make_variables_game_time|].
  split; [apply make_variables_player_position|].
  split; [apply Hgate|].
  split; [|intros base m r n; apply obtain_first_read].
  intros v Hv. destruct (Hgate initial_globals v Hv) as [Hg Hp].
  split; [exact Hg|]. intros Ha. specialize (Hp Ha).
  destruct (initial_roots_shared env) as [Ew Ec].
  rewrite Ew, Ec. now repeat split.
Qed.

Lemma unwired_chain_is_not_rendered_witness :
  offset (game_epoch (fst (make_variables sample_environment initial_globals))) 0 <> 0
  /\ (offset (player_pos (fst (make_variables sample_environment initial_globals))) 0
      <> 0
      /\ offset (worldspace_name
                   (fst (make_variables sample_environment initial_globals))) 0 <> 0
      /\ offset (player_cell
                   (fst (make_variables sample_environment initial_globals))) 0 <> 0)
  /\ exists log,
       snd (obtain_traced sample_base image_memory unwired_chain)
       = addp sample_base (offset unwired_chain 0) :: log.
Proof.
  split; [|split].
  - apply (proj1 (proj1 (proj2 (proj2
      (unwired_chain_is_not_rendered sample_environment initial_globals)))
      gtime (or_introl eq_refl)) eq_refl).
  - apply (proj2 (proj1 (proj2 (proj2 (proj2
      (unwired_chain_is_not_rendered sample_environment initial_globals))))
      ppos (or_intror (or_introl eq_refl))) eq_refl).
  - apply (proj2 (proj2 (proj2 (proj2
      (unwired_chain_is_not_rendered sample_environment initial_globals))))
      sample_base image_memory unwired_chain 0%nat eq_refl).
Defined.

(** ** The substitution primitive *)

(** C5: [replace_all] replaces every non-overlapping occurrence of the
    token, left to right, and resumes behind each inserted replacement:
    its result is the one [Subst] describes, in which what follows an
    occurrence is rewritten on its own and the inserted text is final; the
    result is unique; and substituting "%x%x" for "%x" in "%x" gives
    "%x%x". *)
Theorem replace_all_single_pass :
  (forall data search repl,
      search <> "" ->
      exists out,
        replace_all data search repl = Ok out
        /\ Subst search repl data out
        /\ forall out', Subst search repl data out' -> out' = out)
  /\ replace_all "%x" "%x" "%x%x" = Ok "%x%x".
Proof.
  split; [|reflexivity].
  intros data search repl Hne.
  destruct (replace_all_subst search repl data Hne) as (out & E & HS).
  exists out. split; [exact E|]. split; [exact HS|].
  intros out' HS'. exact (Subst_functional search repl data out' out HS' HS).
Qed.

Lemma replace_all_single_pass_witness :
  exists out,
    replace_all "day %md, %md" "%md" "<%md>" = Ok out
    /\ Subst "%md" "<%md>" "day %md, %md" out
    /\ forall out', Subst "%md" "<%md>" "day %md, %md" out' -> out' = out.
Proof.
  apply (proj1 replace_all_single_pass "day %md, %md" "%md" "<%md>").
  discriminate.
Defined.

(** C10: for every input, every replacement and every non-empty token the
    loop of [replace_all] ends, within as many iterations as the input has
    characters; with the empty token it never ends, whatever the input and
    the replacement. *)
Theorem replace_all_terminates :
  (forall data search repl,
      search <> "" ->
      exists out,
        replace_loop (length data) data search repl (Str.find data search 0)
        = Some out)
  /\ (forall data repl fuel,
        replace_loop fuel data "" repl (Str.find data "" 0) = None).
Proof.
  split.
  - intros data search repl Hne.
    destruct (replace_loop_rest search repl (length data) Hne data "" (le_n _))
      as (out & E & _).
    now exists out.
  - intros data repl fuel.
    rewrite StrFacts.find_from_start.
    assert (Str.find0 data "" = Some 0%nat) as -> by now destruct data.
    apply replace_loop_empty_token; [reflexivity | lia].
Qed.

Lemma replace_all_terminates_witness :
  exists out,
    replace_loop (length "%x") "%x" "%x" "%x%x" (Str.find "%x" "%x" 0) = Some out.
Proof.
  apply (proj1 replace_all_terminates "%x" "%x" "%x%x"). discriminate.
Defined.

(** ** The calendar *)

(** C6: the day of the year 365 is found at index 11 of the cumulative
    table, the last month, and is its day 31, which is 365 less the entry
    334 before; the game day 136, the last of the first year, renders so. *)
Theorem last_day_of_year :
  lower_bound months 365 = 11%nat
  /\ nth 10 months 0 = 334
  /\ month_of 365 = (11, 31)
  /\ at_ longmon (fst (month_of 365)) = Ok "Evening Star"
  /\ cal_yd (compute_calendar (F32.of_bits 0x43080000)) = 365
  /\ game_time sample_globals (epoch_memory 0x43080000) "%md of %lm (%mo)"
     = Ok "31 of Evening Star (12)".
Proof. repeat split; vm_compute; reflexivity. Qed.

(** C2, as stated, fails for the raw input 0.0: zero is not a normal
    float, so the guard of line 204 answers for it. *)
Lemma game_time_zero_is_rejected :
  ~ (game_time sample_globals (epoch_memory 0x3EE66666) "%ld" = Ok "Sundas"
     /\ game_time sample_globals (epoch_memory 0x3EE66666) "%h" = Ok "10"
     /\ game_time sample_globals (epoch_memory 0) "%ld" = Ok "Sundas"
     /\ game_time sample_globals (epoch_memory 0) "%h" = Ok "0"
     /\ game_time sample_globals (epoch_memory 0) "%m" = Ok "0"
     /\ game_time sample_globals (epoch_memory 0) "%s" = Ok "0"
     /\ game_time sample_globals (epoch_memory 0) "%y" = Ok "201"
     /\ game_time sample_globals (epoch_memory 0) "%mo" = Ok "8"
     /\ game_time sample_globals (epoch_memory 0) "%md" = Ok "17").
Proof.
  intros (_ & _ & H & _). vm_compute in H. discriminate H.
Qed.

(** C2, amended: the raw input 0.45 (bits 3EE66666) renders the weekday
    "Sundas" and the hour 10. The raw input 0.0 renders "(n/a)" for every
    format string; the arithmetic of lines 208-224 alone maps it to hour,
    minute and second 0, year 201, month index 7 ("Last Seed", number 8),
    day 17 and weekday 0 ("Sundas"), and that is what [game_time] renders
    for the least normal float (bits 00800000). *)
Theorem calendar_examples :
  game_time sample_globals (epoch_memory 0x3EE66666) "%ld" = Ok "Sundas"
  /\ game_time sample_globals (epoch_memory 0x3EE66666) "%h" = Ok "10"
  /\ (forall format,
        game_time sample_globals (epoch_memory 0) format = Ok "(n/a)")
  /\ compute_calendar (F32.of_bits 0)
     = {| cal_h := 0; cal_m := 0; cal_s := 0; cal_d := 228; cal_y := 201;
          cal_yd := 229; cal_wd := 0; cal_mo := 7; cal_md := 17 |}
  /\ at_ longwday 0 = Ok "Sundas"
  /\ at_ longmon 7 = Ok "Last Seed"
  /\ game_time sample_globals (epoch_memory 0x00800000)
       "%ld %h %m %s %y %mo %lm %md"
     = Ok "Sundas 0 0 0 201 8 Last Seed 17".
Proof.
  split; [vm_compute; reflexivity|]. split; [vm_compute; reflexivity|].
  split; [|repeat split; vm_compute; reflexivity].
  intros format. apply game_time_rejected. right. vm_compute. reflexivity.
Qed.

(** C9 does not hold at the float 2147483520 (bits 4EFFFFFF): it is
    normal and not negative, so it passes the guard, and its integer part
    fits [int], yet adding 228 wraps; the day of the year is -207, not in
    1..365, and the weekday index is -4, outside both weekday tables. *)
Theorem calendar_day_count_overflow :
  epoch_rejected (F32.of_bits 0x4EFFFFFF) = false
  /\ F32.trunc (F32.of_bits 0x4EFFFFFF) = Some 2147483520
  /\ cal_d (compute_calendar (F32.of_bits 0x4EFFFFFF)) = -2147483548
  /\ cal_yd (compute_calendar (F32.of_bits 0x4EFFFFFF)) = -207
  /\ cal_wd (compute_calendar (F32.of_bits 0x4EFFFFFF)) = -4
  /\ at_ shrtwday (cal_wd (compute_calendar (F32.of_bits 0x4EFFFFFF))) = OutOfBounds
  /\ at_ longwday (cal_wd (compute_calendar (F32.of_bits 0x4EFFFFFF))) = OutOfBounds.
Proof. repeat split; vm_compute; reflexivity. Qed.

(** C3 does not hold at the float 2147483520 (bits 4EFFFFFF): the guard
    lets this normal, non-negative float through, and yet no format string
    comes back with its escapes substituted, because the lookup of the
    short weekday name leaves its table. *)
Theorem game_time_accepts_overflowing_epoch :
  epoch_rejected (F32.of_bits 0x4EFFFFFF) = false
  /\ forall format,
       game_time sample_globals (epoch_memory 0x4EFFFFFF) format = OutOfBounds.
Proof.
  split; [vm_compute; reflexivity|]. intros format.
  rewrite game_time_sample by (vm_compute; split; [discriminate | reflexivity]).
  replace (epoch_rejected (F32.of_bits 0x4EFFFFFF)) with false
    by (vm_compute; reflexivity).
  set (v := F32.of_bits 0x4EFFFFFF).
  replace (compute_calendar v)
    with {| cal_h := 0; cal_m := 0; cal_s := 0; cal_d := -2147483548;
            cal_y := -5883315; cal_yd := -207; cal_wd := -4;
            cal_mo := 0; cal_md := -207 |}
    by (vm_compute; reflexivity).
  unfold substitute_calendar.
  cbn [cal_h cal_m cal_s cal_d cal_y cal_yd cal_wd cal_mo cal_md].
  repeat first [token_replaced | table_lookup]. reflexivity.
Qed.

(** ** The location *)

(** C4: when the position pointer is null or one of the three coordinates
    is not finite, [player_location] returns "(n/a)" for every format
    string. Otherwise the coordinate escapes are substituted, whatever the
    names are, and then each name escape by the name, or by the empty text
    when that name is absent. *)
Theorem player_location_sentinel_and_names (g : globals) (m : memory) :
  let pos := obtain (skyrim_base g) m (player_pos g) in
  let p0 := load_float m pos in
  let p1 := load_float m (addp pos 4) in
  let p2 := load_float m (addp pos 8) in
  let world := obtain (skyrim_base g) m (worldspace_name g) in
  let cell := obtain (skyrim_base g) m (player_cell g) in
  (pos = 0 \/ F32.isfinite p0 = false \/ F32.isfinite p1 = false
   \/ F32.isfinite p2 = false ->
   forall format, player_location g m format = Ok "(n/a)")
  /\ (pos <> 0 -> F32.isfinite p0 = true -> F32.isfinite p1 = true ->
      F32.isfinite p2 = true ->
      forall format,
      exists coords named out,
        substitute_coordinates p0 p1 p2 format = Ok coords
        /\ replace_all coords "%wn" (if world =? 0 then "" else c_str m world)
           = Ok named
        /\ replace_all named "%cn" (if cell =? 0 then "" else c_str m cell)
           = Ok out
        /\ player_location g m format = Ok out).
Proof.
  cbv zeta. split.
  - intros H format. apply player_location_rejected. exact H.
  - intros Hp H0 H1 H2 format.
    destruct (substitute_coordinates_total
       (load_float m (obtain (skyrim_base g) m (player_pos g)))
       (load_float m (addp (obtain (skyrim_base g) m (player_pos g)) 4))
       (load_float m (addp (obtain (skyrim_base g) m (player_pos g)) 8)) format)
      as (coords & Ec).
    destruct (replace_all_subst "%wn"
                (if obtain (skyrim_base g) m (worldspace_name g) =? 0 then ""
                 else c_str m (obtain (skyrim_base g) m (worldspace_name g)))
                coords) as (named & En & _); [discriminate|].
    destruct (replace_all_subst "%cn"
                (if obtain (skyrim_base g) m (player_cell g) =? 0 then ""
                 else c_str m (obtain (skyrim_base g) m (player_cell g)))
                named) as (out & Eo & _); [discriminate|].
    exists coords, named, out.
    split; [exact Ec|]. split; [exact En|]. split; [exact Eo|].
    rewrite (player_location_accepted g m format Hp H0 H1 H2), Ec.
    cbn [bind]. rewrite substitute_names_text, En. cbn [bind]. exact Eo.
Qed.

(** A player at (1, 2, -4097) in the cell "Whiterun" of no world space;
    and one whose second coordinate is infinite. *)
Lemma player_location_sentinel_and_names_witness :
  (forall format,
      player_location sample_globals
        (player_memory 0x3F800000 0x7F800000 0xC5800800 0 0x32000000) format
      = Ok "(n/a)")
  /\ player_location sample_globals
       (player_memory 0x3F800000 0x40000000 0xC5800800 0 0x32000000)
       "%wn, %cn: %x %y %z"
     = Ok ", Whiterun: 1 2 -4097".
Proof.
  split.
  - apply (proj1 (player_location_sentinel_and_names sample_globals
      (player_memory 0x3F800000 0x7F800000 0xC5800800 0 0x32000000))).
    right; right; left. vm_compute. reflexivity.
  - destruct (proj2 (player_location_sentinel_and_names sample_globals
      (player_memory 0x3F800000 0x40000000 0xC5800800 0 0x32000000)))
      with (format := "%wn, %cn: %x %y %z")
      as (coords & named & out & Ec & En & Eo & E);
      [vm_compute; discriminate | vm_compute; reflexivity ..|].
    rewrite E. vm_compute in Ec. injection Ec as <-.
    vm_compute in En. injection En as <-.
    vm_compute in Eo. injection Eo as <-. reflexivity.
Defined.

(** ** Format strings without escapes *)

(** C8, as stated, fails: when the value is unavailable both formatters
    return the sentinel, also for a format string without escapes. *)
Lemma formatters_return_sentinel_without_value :
  ~ (forall g m format,
        free_of calendar_tokens format -> game_time g m format = Ok format)
  /\ ~ (forall g m format,
          free_of location_tokens format ->
          player_location g m format = Ok format).
Proof.
  split; intros H.
  - specialize (H sample_globals null_memory "abc"
                  (free_of_check calendar_tokens "abc" eq_refl)).
    vm_compute in H. discriminate H.
  - specialize (H sample_globals null_memory "abc"
                  (free_of_check location_tokens "abc" eq_refl)).
    vm_compute in H. discriminate H.
Qed.

(** C8, amended: [replace_all] returns its input unchanged when the token
    does not occur in it, the empty input included; hence a format string
    that holds none of the tokens is returned unchanged by [game_time]
    when the game time is available and its day count is inside the range
    of [int], and by [player_location] when the position is available and
    finite. *)
Theorem formats_without_tokens_unchanged :
  (forall s tok repl,
      (forall k, ~ occurs tok s k) -> replace_all s tok repl = Ok s)
  /\ (forall tok repl, tok <> "" -> replace_all "" tok repl = Ok "")
  /\ (forall g m format,
        obtain (skyrim_base g) m (game_epoch g) <> 0 ->
        epoch_rejected
          (load_float m (obtain (skyrim_base g) m (game_epoch g))) = false ->
        0 <= F32.to_int (load_float m (obtain (skyrim_base g) m (game_epoch g)))
          <= Int.INT_MAX - 231 ->
        free_of calendar_tokens format ->
        game_time g m format = Ok format)
  /\ (forall g m format,
        obtain (skyrim_base g) m (player_pos g) <> 0 ->
        F32.isfinite
          (load_float m (obtain (skyrim_base g) m (player_pos g))) = true ->
        F32.isfinite
          (load_float m (addp (obtain (skyrim_base g) m (player_pos g)) 4)) = true ->
        F32.isfinite
          (load_float m (addp (obtain (skyrim_base g) m (player_pos g)) 8)) = true ->
        free_of location_tokens format ->
        player_location g m format = Ok format).
Proof.
  split; [intros s tok repl; apply replace_all_absent|].
  split; [intros tok repl; apply replace_all_nil|].
  split.
  - intros g m format Hp Hv Hfit Hfree.
    rewrite (game_time_accepted g m format Hp Hv).
    now apply substitute_calendar_identity.
  - intros g m format Hp H0 H1 H2 Hfree.
    rewrite (player_location_accepted g m format Hp H0 H1 H2).
    rewrite substitute_coordinates_identity by exact Hfree.
    cbn [bind]. now apply substitute_names_identity.
Qed.

Lemma formats_without_tokens_unchanged_witness :
  replace_all "100% sure" "%s" "x" = Ok "100% sure"
  /\ replace_all "" "%s" "x" = Ok ""
  /\ game_time sample_globals (epoch_memory 0x3EE66666) "Day of rest"
     = Ok "Day of rest"
  /\ player_location sample_globals
       (player_memory 0x3F800000 0x40000000 0xC5800800 0 0) "here"
     = Ok "here".
Proof.
  split; [|split; [|split]].
  - apply (proj1 formats_without_tokens_unchanged).
    exact (free_of_check ["%s"] "100% sure" eq_refl "%s" (or_introl eq_refl)).
  - apply (proj1 (proj2 formats_without_tokens_unchanged)). discriminate.
  - apply (proj1 (proj2 (proj2 formats_without_tokens_unchanged))).
    + vm_compute; discriminate.
    + vm_compute; reflexivity.
    + vm_compute. split; discriminate.
    + apply free_of_check. vm_compute; reflexivity.
  - apply (proj2 (proj2 (proj2 formats_without_tokens_unchanged))).
    + vm_compute; discriminate.
    + vm_compute; reflexivity.
    + vm_compute; reflexivity.
    + vm_compute; reflexivity.
    + apply free_of_check. vm_compute; reflexivity.
Defined.

(* ================================================================== *)
(** * Part IV: further properties of the code                          *)
(* ================================================================== *)

(** ** relocation::obtain *)

Section ObtainMore.

Variable m : memory.
Variable r : relocation.

Lemma obtain_loop_reads (count i : nat) (that : Z) :
  (List.length (snd (obtain_loop m r count i that)) <= count)%nat
  /\ (fst (obtain_loop m r count i that) <> None ->
      List.length (snd (obtain_loop m r count i that)) = count).
Proof.
  revert i that; induction count as [|count IH]; intros i that;
    cbn [obtain_loop]; [cbn; split; [lia | reflexivity]|].
  destruct (deref m (addp that (offset r i)) =? 0).
  - cbn. split; [lia | congruence].
  - specialize (IH (S i) (deref m (addp that (offset r i)))).
    destruct (obtain_loop m r count (S i) _) as [res log]. cbn in *.
    split; [lia | intros H; now rewrite (proj2 IH H)].
Qed.

(** The loop looks at memory only where it reads. *)
Lemma obtain_loop_local (m' : memory) (count i : nat) (that : Z) :
  (forall a, In a (snd (obtain_loop m r count i that)) -> load64 m' a = load64 m a) ->
  obtain_loop m' r count i that = obtain_loop m r count i that.
Proof.
  revert i that; induction count as [|count IH]; intros i that H;
    cbn [obtain_loop] in *; [reflexivity|].
  assert (deref m' (addp that (offset r i)) = deref m (addp that (offset r i))) as E.
  { unfold deref. rewrite H; [reflexivity|].
    destruct (deref m (addp that (offset r i)) =? 0); [now left|].
    destruct (obtain_loop m r count (S i) _); now left. }
  rewrite E.
  destruct (deref m (addp that (offset r i)) =? 0); [reflexivity|].
  rewrite IH; [reflexivity|].
  intros a Ha. apply H.
  destruct (obtain_loop m r count (S i) _); now right.
Qed.

End ObtainMore.

Lemma addp_range (a b : Z) : 0 <= addp a b < 2 ^ 64.
Proof. unfold addp. apply Z.mod_pos_bound. reflexivity. Qed.

(** X1: [obtain] reads at most [N] addresses and returns an address below
    2^64; when it read fewer than [N] addresses it returns null, so a
    result that is not null was reached by all [N] hops. *)
Theorem obtain_reads_bounded (base : Z) (m : memory) (r : relocation) :
  (List.length (snd (obtain_traced base m r)) <= N r)%nat
  /\ 0 <= fst (obtain_traced base m r) < 2 ^ 64
  /\ ((List.length (snd (obtain_traced base m r)) < N r)%nat ->
      fst (obtain_traced base m r) = 0)
  /\ (fst (obtain_traced base m r) <> 0 ->
      List.length (snd (obtain_traced base m r)) = N r).
Proof.
  unfold obtain_traced.
  pose proof (obtain_loop_reads m r (N r) 0 base) as [Hle Heq].
  destruct (obtain_loop m r (N r) 0 base) as [[that|] log]; cbn [fst snd] in *.
  - split; [exact Hle|]. split; [apply addp_range|].
    split; [intros H; rewrite Heq in H by discriminate; lia|].
    intros _. apply Heq. discriminate.
  - split; [exact Hle|]. split; [split; [lia | reflexivity]|].
    split; [reflexivity | congruence].
Qed.

Lemma obtain_reads_bounded_witness :
  (List.length (snd (obtain_traced sample_base null_memory
                       (worldspace_name sample_globals))) < 3)%nat
  /\ fst (obtain_traced sample_base null_memory
            (worldspace_name sample_globals)) = 0
  /\ List.length (snd (obtain_traced sample_base (epoch_memory 0)
                         (game_epoch sample_globals))) = 1%nat.
Proof.
  split; [vm_compute; lia|]. split.
  - apply (proj1 (proj2 (proj2 (obtain_reads_bounded sample_base null_memory
      (worldspace_name sample_globals))))).
    vm_compute. lia.
  - apply (proj2 (proj2 (proj2 (obtain_reads_bounded sample_base (epoch_memory 0)
      (game_epoch sample_globals))))).
    vm_compute. discriminate.
Defined.

(** X2: the result of [obtain] and the addresses it reads depend on
    nothing in memory but the words at those addresses: a memory that
    agrees there gives the same result and the same reads. *)
Theorem obtain_depends_on_reads (base : Z) (m m' : memory) (r : relocation) :
  (forall a, In a (snd (obtain_traced base m r)) -> load64 m' a = load64 m a) ->
  obtain_traced base m' r = obtain_traced base m r.
Proof.
  unfold obtain_traced. intros H.
  rewrite (obtain_loop_local m r m'); [reflexivity|].
  intros a Ha. apply H.
  destruct (obtain_loop m r (N r) 0 base) as [[that|] log]; exact Ha.
Qed.

(** The image memory differs from the empty one at the base address, where
    the game time chain does not read. *)
Lemma obtain_depends_on_reads_witness :
  load64 image_memory sample_base <> load64 null_memory sample_base
  /\ obtain_traced sample_base image_memory (game_epoch sample_globals)
     = obtain_traced sample_base null_memory (game_epoch sample_globals).
Proof.
  split; [vm_compute; discriminate|].
  apply (obtain_depends_on_reads sample_base null_memory image_memory
           (game_epoch sample_globals)).
  intros a [<-|[]]. reflexivity.
Defined.

(** ** replace_all *)

Section ReplaceAllMore.
Import Str StrFacts.
Local Open Scope nat_scope.

Variables search repl : string.

Lemma find0_first (s t : string) (k : nat) :
  occurs t s k -> (forall j, j < k -> ~ occurs t s j) -> find0 s t = Some k.
Proof.
  intros Hk Hmin. pose proof (find0_spec s t) as F.
  destruct (find0 s t) as [k'|]; [|now apply F in Hk].
  destruct F as [Hk' Hmin'].
  destruct (Nat.lt_trichotomy k' k) as [L | [-> | L]]; [|reflexivity|].
  - now apply Hmin in Hk'.
  - now apply Hmin' in Hk.
Qed.

(** Every replaced occurrence takes the token out and puts the
    replacement in, and the scan counts each of them once. *)
Lemma count_hits_Subst (s out : string) :
  search <> "" ->
  Subst search repl s out ->
  forall fuel,
    length s <= fuel ->
    count_hits fuel search s * length search <= length s
    /\ length out + count_hits fuel search s * length search
       = length s + count_hits fuel search s * length repl.
Proof.
  intros Hne HS.
  assert (0 < length search) as Hpos.
  { destruct search; [congruence | cbn; lia]. }
  induction HS as [s Hno | pre post out Hmin _ IH]; intros fuel Hfuel.
  - assert (count_hits fuel search s = 0) as ->.
    { destruct fuel; [reflexivity|]. cbn [count_hits].
      now rewrite (find0_none _ _ Hno). }
    cbn. lia.
  - rewrite !length_append in Hfuel.
    destruct fuel as [|fuel]; [lia|].
    cbn [count_hits].
    rewrite (find0_first (pre ++ search ++ post) search (length pre));
      [|now exists pre, post | exact Hmin].
    replace (drop (length pre + length search) (pre ++ search ++ post))
      with post.
    2:{ rewrite <- append_assoc.
        rewrite <- (length_append pre search). now rewrite drop_app. }
    destruct (IH fuel ltac:(lia)) as [Hk Hlen].
    rewrite !length_append, !Nat.mul_succ_l. lia.
Qed.

(** The count is zero exactly when the token does not occur. *)
Lemma occurrences_zero (s : string) :
  search <> "" ->
  occurrences search s = 0 <-> forall k, ~ occurs search s k.
Proof.
  intros Hne. unfold occurrences. split.
  - intros H k Hk. pose proof (occurs_bound _ _ _ Hk) as B.
    assert (0 < length search) as Hpos.
    { destruct search; [congruence | cbn; lia]. }
    destruct (length s) as [|n]; [lia|]. cbn [count_hits] in H.
    pose proof (find0_spec s search) as F.
    destruct (find0 s search); [discriminate | now apply F in Hk].
  - intros Hno. destruct (length s); [reflexivity|]. cbn [count_hits].
    now rewrite (find0_none _ _ Hno).
Qed.

End ReplaceAllMore.

Lemma Subst_same (tok s out : string) : Subst tok tok s out -> out = s.
Proof. induction 1 as [|pre post out _ _ IH]; [reflexivity | now rewrite IH]. Qed.

(** X3: for a non-empty token [replace_all] returns a text whose length is
    that of the input plus, for each occurrence replaced, the length of the
    replacement less that of the token. The occurrences replaced are those
    [occurrences] counts: the ones a left-to-right scan meets when it
    resumes behind each; there is none exactly when the token does not
    occur, and as they do not overlap that many tokens fit into the
    input. *)
Theorem replace_all_length (data search repl : string) :
  search <> "" ->
  exists out : string,
    replace_all data search repl = Ok out
    /\ (occurrences search data = 0%nat <-> forall k, ~ occurs search data k)
    /\ (occurrences search data * length search <= length data)%nat
    /\ (length out + occurrences search data * length search
        = length data + occurrences search data * length repl)%nat.
Proof.
  intros Hne.
  destruct (replace_all_subst search repl data Hne) as (out & E & HS).
  exists out. split; [exact E|].
  split; [now apply occurrences_zero|].
  exact (count_hits_Subst search repl data out Hne HS (length data) (le_n _)).
Qed.

Lemma replace_all_length_witness :
  occurrences "%" "%h:%m:%s" = 3%nat
  /\ exists out : string,
       replace_all "%h:%m:%s" "%" "%%" = Ok out
       /\ (occurrences "%" "%h:%m:%s" = 0%nat
           <-> forall k, ~ occurs "%" "%h:%m:%s" k)
       /\ (occurrences "%" "%h:%m:%s" * length "%" <= length "%h:%m:%s")%nat
       /\ (length out + occurrences "%" "%h:%m:%s" * length "%"
           = length "%h:%m:%s" + occurrences "%" "%h:%m:%s" * length "%%")%nat.
Proof.
  split; [reflexivity|].
  apply (replace_all_length "%h:%m:%s" "%" "%%"). discriminate.
Defined.

(** X4: replacing a non-empty token by itself returns the input. *)
Theorem replace_all_by_itself (data search : string) :
  search <> "" -> replace_all data search search = Ok data.
Proof.
  intros Hne.
  destruct (replace_all_subst search search data Hne) as (out & E & HS).
  now rewrite E, (Subst_same search data out HS).
Qed.

Lemma replace_all_by_itself_witness :
  replace_all "%md of %lm, %md" "%md" "%md" = Ok "%md of %lm, %md".
Proof.
  apply (replace_all_by_itself "%md of %lm, %md" "%md"). discriminate.
Defined.

(** ** Text around a single escape *)

Section Percent.
Import Str StrFacts.

Lemma no_percent_app (a b : string) :
  no_percent (a ++ b) = no_percent a && no_percent b.
Proof.
  induction a as [|c a IH]; cbn; [reflexivity | now rewrite IH, andb_assoc].
Qed.

Lemma no_percent_take (n : nat) (s : string) :
  no_percent s = true -> no_percent (take n s) = true.
Proof.
  revert s; induction n as [|n IH]; intros [|c s]; cbn; try reflexivity.
  rewrite !andb_true_iff. intros [Hc Hs]. split; [exact Hc | now apply IH].
Qed.

Lemma no_percent_repeat_zero (n : nat) : no_percent (repeat Ascii.zero n) = true.
Proof. induction n as [|n IH]; cbn; [reflexivity | exact IH]. Qed.

(** A text without the character holds no escape. *)
Lemma no_percent_absent (s rest : string) :
  no_percent s = true -> forall k, ~ occurs (String "%" rest) s k.
Proof.
  induction s as [|c s IH]; intros Hs k H.
  - apply occurs_bound in H. cbn in H. lia.
  - cbn in Hs. apply andb_true_iff in Hs as [Hc Hs]. destruct k as [|k].
    + apply occurs_zero in H. cbn in H. apply andb_true_iff in H as [H _].
      rewrite H in Hc. discriminate.
    + apply occurs_succ in H. exact (IH Hs k H).
Qed.

(** In a text whose only such character starts [tok], an escape can only
    occur where [tok] does, and must then start [tok ++ post]. *)
Lemma occurs_at_percent (pre letters post rest : string) (k : nat) :
  no_percent pre = true -> no_percent letters = true -> no_percent post = true ->
  occurs (String "%" rest) (pre ++ String "%" letters ++ post) k ->
  k = length pre
  /\ starts_with (String "%" letters ++ post) (String "%" rest) = true.
Proof.
  intros Hpre Hl Hpost. revert k.
  induction pre as [|c pre IH]; intros k H.
  - destruct k as [|k].
    + split; [reflexivity | now apply occurs_zero].
    + exfalso. cbn [append] in H. apply occurs_succ in H.
      refine (no_percent_absent (letters ++ post) rest _ k H).
      now rewrite no_percent_app, Hl, Hpost.
  - cbn in Hpre. apply andb_true_iff in Hpre as [Hc Hpre]. destruct k as [|k].
    + exfalso. apply occurs_zero in H. cbn in H.
      apply andb_true_iff in H as [H _]. rewrite H in Hc. discriminate.
    + cbn [append] in H. apply occurs_succ in H.
      destruct (IH Hpre k H) as [-> Hs]. split; [reflexivity | exact Hs].
Qed.

Lemma absent_in_context (pre letters post rest : string) :
  no_percent pre = true -> no_percent letters = true -> no_percent post = true ->
  starts_with (String "%" letters ++ post) (String "%" rest) = false ->
  forall k, ~ occurs (String "%" rest) (pre ++ String "%" letters ++ post) k.
Proof.
  intros Hpre Hl Hpost Hs k H.
  destruct (occurs_at_percent pre letters post rest k Hpre Hl Hpost H) as [_ E].
  congruence.
Qed.

(** The one escape of such a text is replaced where it stands. *)
Lemma replace_single (pre letters post val : string) :
  no_percent pre = true -> no_percent letters = true -> no_percent post = true ->
  replace_all (pre ++ String "%" letters ++ post) (String "%" letters) val
  = Ok (pre ++ val ++ post).
Proof.
  intros Hpre Hl Hpost.
  destruct (replace_all_subst (String "%" letters) val
              (pre ++ String "%" letters ++ post)) as (out & E & HS);
    [discriminate|].
  rewrite E. f_equal.
  apply (Subst_functional (String "%" letters) val
           (pre ++ String "%" letters ++ post)); [exact HS|].
  constructor.
  - intros k Hk H.
    destruct (occurs_at_percent pre letters post letters k Hpre Hl Hpost H). lia.
  - constructor. now apply no_percent_absent.
Qed.

Lemma no_percent_uint (d : Decimal.uint) :
  no_percent (NilEmpty.string_of_uint d) = true.
Proof. induction d; cbn; auto. Qed.

Lemma no_percent_to_string (z : Z) : no_percent (Int.to_string z) = true.
Proof.
  unfold Int.to_string, NilZero.string_of_int, NilZero.string_of_uint.
  destruct (Z.to_int z) as [d|d]; destruct d; cbn; auto using no_percent_uint;
    apply (no_percent_uint (_ d)).
Qed.

Lemma no_percent_nth (table : list string) (i : nat) :
  forallb no_percent table = true -> no_percent (nth i table "") = true.
Proof.
  revert i; induction table as [|x table IH]; intros [|i] H; cbn in *;
    try reflexivity; apply andb_true_iff in H as [Hx H]; auto.
Qed.

Lemma no_percent_format_f (p : nat) (f : spec_float) :
  no_percent (F32.format_f p f) = true.
Proof.
  assert (forall q, no_percent (F32.fixed_text p q) = true) as Hfixed.
  { intros q. unfold F32.fixed_text. rewrite no_percent_app, no_percent_to_string.
    destruct p; [reflexivity|]. cbn [andb append no_percent].
    unfold F32.pad_zeros. rewrite no_percent_app, no_percent_to_string, andb_true_r.
    generalize (S p - length (Int.to_string (q mod 10 ^ Z.of_nat (S p))))%nat.
    intros n. induction n as [|n IH]; cbn; auto. }
  destruct f as [s|s| |s mm e]; cbn [F32.format_f];
    try (rewrite no_percent_app, Hfixed; now destruct s);
    [now destruct s | reflexivity].
Qed.

Lemma no_percent_snprintf (f : spec_float) :
  no_percent (F32.snprintf_0f f) = true.
Proof.
  unfold F32.snprintf_0f.
  destruct (length (F32.format_f 0 f) <=? 14)%nat; [apply no_percent_format_f|].
  rewrite no_percent_app, no_percent_take, no_percent_repeat_zero;
    [reflexivity | apply no_percent_format_f].
Qed.

End Percent.

Ltac percent_free Hpre Hpost :=
  rewrite ?no_percent_app;
  rewrite ?Hpre, ?Hpost, ?no_percent_to_string, ?no_percent_snprintf;
  rewrite ?no_percent_nth by reflexivity;
  reflexivity.

Ltac starts_false Hlong :=
  first
    [ reflexivity
    | match goal with
      | |- ?b = false =>
          let E := fresh "E" in
          destruct b eqn:E;
          [ apply Hlong in E; [cbn in E; lia | cbn; tauto] | reflexivity ]
      end ].

Ltac escape_step Hpre Hpost Hlong :=
  first
    [ rewrite replace_single by (assumption || reflexivity)
    | rewrite replace_all_absent
        by first
             [ apply absent_in_context;
               [exact Hpre | reflexivity | exact Hpost | starts_false Hlong]
             | apply no_percent_absent; percent_free Hpre Hpost ] ];
  cbn [bind].

Ltac escape_cases H solve :=
  lazymatch type of H with
  | (if (?t =? ?lit)%string then _ else _) = _ =>
      destruct (String.eqb_spec t lit) as [->|_];
      [ injection H as <-; solve | escape_cases H solve ]
  | None = Some _ => discriminate H
  end.

(** ** game_time: one escape in plain text *)

Lemma substitute_calendar_single (v : spec_float) (c : calendar)
    (pre tok post val : string) :
  0 <= cal_mo c <= 11 -> 0 <= cal_wd c <= 6 ->
  no_percent pre = true -> no_percent post = true ->
  calendar_escape v c tok = Some val ->
  longest_escape calendar_tokens tok post ->
  substitute_calendar v c (pre ++ tok ++ post) = Ok (pre ++ val ++ post).
Proof.
  intros Hmo Hwd Hpre Hpost Hval Hlong.
  unfold substitute_calendar.
  rewrite (at_in_bounds longmon), (at_in_bounds birtmon), (at_in_bounds argomon),
    (at_in_bounds shrtwday), (at_in_bounds longwday)
    by (unfold longmon, birtmon, argomon, shrtwday, longwday;
        cbn [List.length]; lia).
  rewrite !wrap_in_range
    by (unfold Int.INT_MIN, Int.INT_MAX; change (2 ^ 31) with 2147483648; lia).
  cbn [bind]. unfold calendar_escape in Hval.
  escape_cases Hval ltac:(repeat escape_step Hpre Hpost Hlong; reflexivity).
Qed.

(** ** player_location: one escape in plain text *)

Ltac location_step Hpre Hpost Hwn :=
  first
    [ rewrite replace_single by (assumption || reflexivity)
    | rewrite replace_all_absent
        by first
             [ apply absent_in_context;
               [exact Hpre | reflexivity | exact Hpost | reflexivity]
             | apply no_percent_absent; percent_free Hpre Hpost
             | apply Hwn; reflexivity ] ];
  cbn [bind].

Lemma substitute_location_single (p0 p1 p2 : spec_float) (world cell : Z)
    (m : memory) (pre tok post val : string) :
  no_percent pre = true -> no_percent post = true ->
  location_escape p0 p1 p2 (name_text m world) (name_text m cell) tok = Some val ->
  (tok = "%wn" -> forall k, ~ occurs "%cn" (pre ++ val ++ post) k) ->
  bind (substitute_coordinates p0 p1 p2 (pre ++ tok ++ post))
    (substitute_names world cell m)
  = Ok (pre ++ val ++ post).
Proof.
  intros Hpre Hpost Hval Hwn.
  unfold substitute_coordinates, location_escape, name_text in *.
  escape_cases Hval
    ltac:(repeat location_step Hpre Hpost Hwn;
          rewrite substitute_names_text;
          repeat location_step Hpre Hpost Hwn; reflexivity).
Qed.

(** X5: in a format string that holds one escape of the player position
    between texts without the character %, [player_location] puts what the
    escape stands for in its place and leaves the rest, whenever the
    position is available and finite; for the world name this needs that
    the name brings no cell escape into the text. *)
Theorem player_location_single_escape (g : globals) (m : memory)
    (pre tok post val : string) :
  obtain (skyrim_base g) m (player_pos g) <> 0 ->
  F32.isfinite (load_float m (obtain (skyrim_base g) m (player_pos g))) = true ->
  F32.isfinite
    (load_float m (addp (obtain (skyrim_base g) m (player_pos g)) 4)) = true ->
  F32.isfinite
    (load_float m (addp (obtain (skyrim_base g) m (player_pos g)) 8)) = true ->
  no_percent pre = true -> no_percent post = true ->
  location_escape
    (load_float m (obtain (skyrim_base g) m (player_pos g)))
    (load_float m (addp (obtain (skyrim_base g) m (player_pos g)) 4))
    (load_float m (addp (obtain (skyrim_base g) m (player_pos g)) 8))
    (name_text m (obtain (skyrim_base g) m (worldspace_name g)))
    (name_text m (obtain (skyrim_base g) m (player_cell g)))
    tok = Some val ->
  (tok = "%wn" -> forall k, ~ occurs "%cn" (pre ++ val ++ post) k) ->
  player_location g m (pre ++ tok ++ post) = Ok (pre ++ val ++ post).
Proof.
  intros Hp H0 H1 H2 Hpre Hpost Hval Hwn.
  rewrite (player_location_accepted g m _ Hp H0 H1 H2).
  now apply substitute_location_single.
Qed.

Lemma player_location_single_escape_witness :
  player_location sample_globals
    (player_memory 0x3F800000 0x40000000 0xC5800800 0x31000000 0x32000000)
    ("cell " ++ "%cx" ++ " west")
  = Ok ("cell " ++ "0" ++ " west")
  /\ player_location sample_globals
       (player_memory 0x3F800000 0x40000000 0xC5800800 0x31000000 0x32000000)
       ("in " ++ "%wn" ++ ".")
     = Ok ("in " ++ "Tamriel" ++ ".").
Proof.
  split.
  - apply (player_location_single_escape sample_globals
             (player_memory 0x3F800000 0x40000000 0xC5800800 0x31000000 0x32000000)
             "cell " "%cx" " west" "0");
      try (vm_compute; reflexivity); try (vm_compute; discriminate).
  - apply (player_location_single_escape sample_globals
             (player_memory 0x3F800000 0x40000000 0xC5800800 0x31000000 0x32000000)
             "in " "%wn" "." "Tamriel");
      try (vm_compute; reflexivity); try (vm_compute; discriminate).
    intros _. apply no_percent_absent. reflexivity.
Defined.

Lemma absent_by_find (s tok : string) :
  Str.find0 s tok = None -> forall k, ~ occurs tok s k.
Proof.
  intros E. pose proof (StrFacts.find0_spec s tok) as F. now rewrite E in F.
Qed.

(** X6: for the format string "%wn" [player_location] returns the world
    name with every "%cn" in it replaced by the cell name: a name that is
    substituted first is scanned for the escapes substituted after it. *)
Theorem world_name_is_scanned_for_cell_escape (g : globals) (m : memory) :
  obtain (skyrim_base g) m (player_pos g) <> 0 ->
  F32.isfinite (load_float m (obtain (skyrim_base g) m (player_pos g))) = true ->
  F32.isfinite
    (load_float m (addp (obtain (skyrim_base g) m (player_pos g)) 4)) = true ->
  F32.isfinite
    (load_float m (addp (obtain (skyrim_base g) m (player_pos g)) 8)) = true ->
  player_location g m "%wn"
  = replace_all (name_text m (obtain (skyrim_base g) m (worldspace_name g)))
      "%cn" (name_text m (obtain (skyrim_base g) m (player_cell g))).
Proof.
  intros Hp H0 H1 H2.
  rewrite (player_location_accepted g m _ Hp H0 H1 H2).
  unfold substitute_coordinates.
  repeat (rewrite replace_all_absent by (apply absent_by_find; reflexivity);
          cbn [bind]).
  rewrite substitute_names_text. fold (name_text m (obtain (skyrim_base g) m (worldspace_name g))).
  fold (name_text m (obtain (skyrim_base g) m (player_cell g))).
  change (replace_all "%wn" "%wn") with (replace_all ("" ++ "%wn" ++ "") "%wn").
  rewrite replace_single by reflexivity. cbn [bind append].
  now rewrite StrFacts.append_nil_r.
Qed.

(** A player in the world space "Tamriel %cn" and the cell "Whiterun". *)
Lemma world_name_is_scanned_for_cell_escape_witness :
  player_location sample_globals escaped_memory "%wn" = Ok "Tamriel Whiterun".
Proof.
  rewrite (world_name_is_scanned_for_cell_escape sample_globals escaped_memory);
    try (vm_compute; reflexivity); try (vm_compute; discriminate).
Defined.

(** ** The calendar as a date *)

Lemma month_of_inverse (yd : Z) :
  1 <= yd <= 365 ->
  days_before_month (fst (month_of yd)) + snd (month_of yd) = yd
  /\ snd (month_of yd) <= nth (Z.to_nat (fst (month_of yd))) month_days 0.
Proof.
  intros H. unfold month_of, months, days_before_month, month_days.
  cbn [lower_bound].
  repeat match goal with
         | |- context [?a <? yd] =>
             destruct (Z.ltb_spec a yd); cbn [fst snd Z.of_nat Z.eqb nth Nat.sub]
         end;
    repeat match goal with
           | |- context [Z.to_nat ?z] =>
               let n := eval vm_compute in (Z.to_nat z) in
               change (Z.to_nat z) with n
           end;
    unfold months; cbn [nth Nat.sub Z.eqb fst snd]; lia.
Qed.

(** X7: inside the range of [int] the date that [game_time] computes is a
    date of the calendar and tells the day count: the day of the month is
    between 1 and the days of its month (31, 28, 31, 30, ...), the year is
    201 or later, and 365 days for each year since 201, the days of the
    months before and the day of the month add up to the day count of
    [%ri], which is the integer part of the raw value plus 228. *)
Theorem calendar_date_round_trip (v : spec_float) :
  0 <= F32.to_int v <= Int.INT_MAX - 231 ->
  day_count_of_date (cal_y (compute_calendar v)) (cal_mo (compute_calendar v))
    (cal_md (compute_calendar v))
  = cal_d (compute_calendar v)
  /\ cal_d (compute_calendar v) = F32.to_int v + 228
  /\ 1 <= cal_md (compute_calendar v)
       <= nth (Z.to_nat (cal_mo (compute_calendar v))) month_days 0
  /\ 201 <= cal_y (compute_calendar v).
Proof.
  intros Hfit.
  destruct (compute_calendar_fields v Hfit) as (Ed & Ey & Eyd & _ & Emo & Emd).
  destruct (compute_calendar_bounds v Hfit) as (Hyd & _ & Hmd & _).
  destruct (month_of_inverse _ Hyd) as [Hinv Hlen].
  rewrite <- Emo, <- Emd in Hinv, Hlen.
  unfold day_count_of_date. rewrite Ed at 1. rewrite Ey.
  unfold Int.INT_MAX in Hfit. change (2 ^ 31) with 2147483648 in Hfit.
  pose proof (Z.div_mod (F32.to_int v + 228) 365 ltac:(lia)) as Hdm.
  assert (0 <= (F32.to_int v + 228) / 365) by (apply Z.div_pos; lia).
  repeat split; try lia.
Qed.

Lemma calendar_date_round_trip_witness :
  day_count_of_date
    (cal_y (compute_calendar (F32.of_bits 0x43080000)))
    (cal_mo (compute_calendar (F32.of_bits 0x43080000)))
    (cal_md (compute_calendar (F32.of_bits 0x43080000)))
  = cal_d (compute_calendar (F32.of_bits 0x43080000)).
Proof.
  apply (calendar_date_round_trip (F32.of_bits 0x43080000)).
  vm_compute. split; discriminate.
Defined.

(** X8: inside the range of [int], when the integer part of the raw value
    grows by one the weekday moves on by one, Sundas following Loredas,
    and the day of the year moves on by one, the first day of the next
    year following day 365. *)
Theorem calendar_next_day (v v' : spec_float) :
  0 <= F32.to_int v <= Int.INT_MAX - 231 ->
  0 <= F32.to_int v' <= Int.INT_MAX - 231 ->
  F32.to_int v' = F32.to_int v + 1 ->
  cal_wd (compute_calendar v') = (cal_wd (compute_calendar v) + 1) mod 7
  /\ (cal_yd (compute_calendar v) < 365 ->
      cal_yd (compute_calendar v') = cal_yd (compute_calendar v) + 1
      /\ cal_y (compute_calendar v') = cal_y (compute_calendar v))
  /\ (cal_yd (compute_calendar v) = 365 ->
      cal_yd (compute_calendar v') = 1
      /\ cal_y (compute_calendar v') = cal_y (compute_calendar v) + 1).
Proof.
  intros Hfit Hfit' Hnext.
  destruct (compute_calendar_fields v Hfit) as (_ & Ey & Eyd & Ewd & _).
  destruct (compute_calendar_fields v' Hfit') as (_ & Ey' & Eyd' & Ewd' & _).
  rewrite Ey, Ey', Eyd, Eyd', Ewd, Ewd', Hnext.
  unfold Int.INT_MAX in Hfit. change (2 ^ 31) with 2147483648 in Hfit.
  set (i := F32.to_int v) in *. clearbody i.
  split; [|split]; intros; Z.div_mod_to_equations; lia.
Qed.

Lemma calendar_next_day_witness :
  cal_yd (compute_calendar (F32.of_bits 0x43090000)) = 1
  /\ cal_y (compute_calendar (F32.of_bits 0x43090000))
     = cal_y (compute_calendar (F32.of_bits 0x43080000)) + 1.
Proof.
  apply (proj2 (proj2 (calendar_next_day (F32.of_bits 0x43080000)
                         (F32.of_bits 0x43090000)
                         ltac:(vm_compute; split; discriminate)
                         ltac:(vm_compute; split; discriminate)
                         ltac:(vm_compute; reflexivity)))).
  vm_compute. reflexivity.
Defined.

(** ** What the formatters return *)

(** X9: [game_time] never hangs, whatever the memory and the format
    string; and when the game time is accepted and its day count is inside
    the range of [int] it returns a text, no table being left. *)
Theorem game_time_returns (g : globals) (m : memory) (format : string) :
  game_time g m format <> Diverges
  /\ (obtain (skyrim_base g) m (game_epoch g) <> 0 ->
      epoch_rejected
        (load_float m (obtain (skyrim_base g) m (game_epoch g))) = false ->
      0 <= F32.to_int (load_float m (obtain (skyrim_base g) m (game_epoch g)))
        <= Int.INT_MAX - 231 ->
      exists out, game_time g m format = Ok out).
Proof.
  split.
  - unfold game_time.
    destruct (_ =? 0); [discriminate|].
    destruct (epoch_rejected _); [discriminate|].
    generalize (compute_calendar
                  (load_float m (obtain (skyrim_base g) m (game_epoch g)))).
    generalize (load_float m (obtain (skyrim_base g) m (game_epoch g))).
    intros v c. unfold substitute_calendar.
    repeat first
      [ token_replaced
      | match goal with
        | |- context [at_ ?t ?i] =>
            unfold at_ at 1;
            match goal with
            | |- context [if ?b then _ else _] => destruct b
            end; cbn [bind]; try discriminate
        end ].
    discriminate.
  - intros Hp Hv Hfit. rewrite (game_time_accepted g m format Hp Hv).
    now apply substitute_calendar_total.
Qed.

Lemma game_time_returns_witness :
  exists out,
    game_time sample_globals (epoch_memory 0x3EE66666) "%h:%m %ld, day %md of %lm, %Y"
    = Ok out.
Proof.
  apply (proj2 (game_time_returns sample_globals (epoch_memory 0x3EE66666)
                  "%h:%m %ld, day %md of %lm, %Y")).
  - vm_compute; discriminate.
  - vm_compute; reflexivity.
  - vm_compute; split; discriminate.
Defined.

(** X10: [player_location] returns a text for every memory and every
    format string: it neither hangs nor leaves a table. *)
Theorem player_location_returns (g : globals) (m : memory) (format : string) :
  exists out, player_location g m format = Ok out.
Proof.
  unfold player_location.
  destruct (_ =? 0); [now exists "(n/a)"|].
  destruct (_ || _); [now exists "(n/a)"|].
  destruct (substitute_coordinates_total
              (load_float m (obtain (skyrim_base g) m (player_pos g)))
              (load_float m (addp (obtain (skyrim_base g) m (player_pos g)) 4))
              (load_float m (addp (obtain (skyrim_base g) m (player_pos g)) 8))
              format) as (coords & ->).
  cbn [bind]. rewrite substitute_names_text.
  repeat token_replaced. eexists; reflexivity.
Qed.

(** X11: for an accepted game time inside the range of [int] the format
    string "%ri" is rendered as the integer part of the raw value plus
    228, the day count from the start of the year 201. *)
Theorem game_time_raw_day (g : globals) (m : memory) :
  obtain (skyrim_base g) m (game_epoch g) <> 0 ->
  epoch_rejected (load_float m (obtain (skyrim_base g) m (game_epoch g))) = false ->
  0 <= F32.to_int (load_float m (obtain (skyrim_base g) m (game_epoch g)))
    <= Int.INT_MAX - 231 ->
  game_time g m "%ri"
  = Ok (Int.to_string
          (F32.to_int (load_float m (obtain (skyrim_base g) m (game_epoch g)))
           + 228)).
Proof.
  intros Hp Hv Hfit.
  rewrite (game_time_accepted g m _ Hp Hv).
  destruct (compute_calendar_bounds _ Hfit) as (_ & Hmo & _ & Hwd).
  destruct (compute_calendar_fields _ Hfit) as (Ed & _).
  change "%ri" with ("" ++ "%ri" ++ "").
  rewrite (substitute_calendar_single _ _ "" "%ri" ""
             (Int.to_string (cal_d (compute_calendar
                (load_float m (obtain (skyrim_base g) m (game_epoch g)))))));
    try assumption; try reflexivity.
  - rewrite Ed. cbn [append]. now rewrite StrFacts.append_nil_r.
  - intros tok' Hin Hs. cbn in Hin.
    repeat (destruct Hin as [<-|Hin]; [try discriminate Hs; cbn; lia|]).
    destruct Hin.
Qed.

Lemma game_time_raw_day_witness :
  game_time sample_globals (epoch_memory 0x3EE66666) "%ri" = Ok "228".
Proof.
  rewrite (game_time_raw_day sample_globals (epoch_memory 0x3EE66666)).
  - vm_compute; reflexivity.
  - vm_compute; discriminate.
  - vm_compute; reflexivity.
  - vm_compute; split; discriminate.
Defined.

(** ** make_variables *)

Lemma obtain_null_first_hop (base : Z) (m : memory) (r : relocation) (n : nat) :
  N r = S n -> deref m (addp base (offset r 0)) = 0 -> obtain base m r = 0.
Proof.
  intros HN H. unfold obtain, obtain_traced. rewrite HN. cbn [obtain_loop].
  now rewrite H.
Qed.

(** X13: started from the initial offsets, with any [find_target] or none,
    the chains of the position, of the world name and of the cell name
    leave [make_variables] with one root offset; hence their first hop
    reads one address, and when the word there is null (no player object)
    the three of them resolve to null. *)
Theorem player_chains_share_root (env : environment) :
  offset (worldspace_name (fst (make_variables env initial_globals))) 0
  = offset (player_pos (fst (make_variables env initial_globals))) 0
  /\ offset (player_cell (fst (make_variables env initial_globals))) 0
     = offset (player_pos (fst (make_variables env initial_globals))) 0
  /\ forall m,
       deref m (addp (module_handle env)
                  (offset (player_pos (fst (make_variables env initial_globals))) 0))
       = 0 ->
       obtain (module_handle env) m
         (player_pos (fst (make_variables env initial_globals))) = 0
       /\ obtain (module_handle env) m
            (worldspace_name (fst (make_variables env initial_globals))) = 0
       /\ obtain (module_handle env) m
            (player_cell (fst (make_variables env initial_globals))) = 0.
Proof.
  set (g := fst (make_variables env initial_globals)).
  assert (offset (worldspace_name g) 0 = offset (player_pos g) 0
          /\ offset (player_cell g) 0 = offset (player_pos g) 0) as [Ew Ec].
  { unfold g, make_variables, wire_globals. cbn [fst].
    destruct (find_target env); split; reflexivity. }
  assert (N (player_pos g) = 1%nat /\ N (worldspace_name g) = 3%nat
          /\ N (player_cell g) = 3%nat) as (Np & Nw & Nc).
  { unfold g, make_variables, wire_globals. cbn [fst].
    destruct (find_target env); repeat split. }
  split; [exact Ew|]. split; [exact Ec|].
  intros m H. repeat split.
  - exact (obtain_null_first_hop _ m _ _ Np H).
  - apply (obtain_null_first_hop _ m _ _ Nw). now rewrite Ew.
  - apply (obtain_null_first_hop _ m _ _ Nc). now rewrite Ec.
Qed.

Lemma player_chains_share_root_witness :
  obtain (module_handle sample_environment) null_memory
    (player_pos (fst (make_variables sample_environment initial_globals))) = 0
  /\ obtain (module_handle sample_environment) null_memory
       (worldspace_name (fst (make_variables sample_environment initial_globals)))
     = 0
  /\ obtain (module_handle sample_environment) null_memory
       (player_cell (fst (make_variables sample_environment initial_globals))) = 0.
Proof.
  apply (proj2 (proj2 (player_chains_share_root sample_environment)) null_memory).
  reflexivity.
Defined.

Lemma make_variables_cases (env : environment) (g : globals) :
  snd (make_variables env g) = [ltime]
  \/ snd (make_variables env g) = [gtime; ltime]
  \/ snd (make_variables env g) = [ppos; ltime]
  \/ snd (make_variables env g) = [gtime; ppos; ltime].
Proof.
  unfold make_variables. cbn [snd].
  repeat match goal with |- context [if ?b then _ else _] => destruct b end;
    cbn; tauto.
Qed.

(** X14: whatever is found, the catalog that [make_variables] returns
    holds between one and three variables, ends with the local time,
    holds no identifier twice and only variables that cannot be deleted,
    and lists the game time before the player position. *)
Theorem catalog_invariants (env : environment) (g : globals) :
  (1 <= List.length (snd (make_variables env g)) <= 3)%nat
  /\ last (snd (make_variables env g)) gtime = ltime
  /\ NoDup (map fuid (snd (make_variables env g)))
  /\ Forall (fun v => deletable v = false) (snd (make_variables env g))
  /\ (forall i j,
        nth_error (snd (make_variables env g)) i = Some ppos ->
        nth_error (snd (make_variables env g)) j = Some gtime ->
        (j < i)%nat).
Proof.
  destruct (make_variables_cases env g) as [E|[E|[E|E]]]; rewrite E;
    (split; [cbn; lia|]); (split; [reflexivity|]);
    (split; [cbn; repeat constructor; cbn; intuition discriminate|]);
    (split; [repeat constructor|]);
    intros i j Hi Hj;
    repeat (destruct i as [|i]; cbn in Hi; try discriminate Hi);
    repeat (destruct j as [|j]; cbn in Hj; try discriminate Hj);
    lia.
Qed.

Lemma catalog_invariants_witness :
  nth_error (snd (make_variables sample_environment initial_globals)) 1
  = Some ppos
  /\ nth_error (snd (make_variables sample_environment initial_globals)) 0
     = Some gtime
  /\ (0 < 1)%nat.
Proof.
  split; [reflexivity|]. split; [reflexivity|].
  apply (proj2 (proj2 (proj2 (proj2
    (catalog_invariants sample_environment initial_globals)))) 1%nat 0%nat);
    reflexivity.
Defined.

(** ** local_time *)

Section LocalTime.
Import Str StrFacts.

Lemma length_repeat (c : ascii) (n : nat) : length (repeat c n) = n.
Proof. induction n as [|n IH]; cbn; [reflexivity | now rewrite IH]. Qed.

Lemma length_resize (s : string) (n : nat) : length (resize s n) = n.
Proof.
  unfold resize. rewrite length_append, length_take, length_repeat. lia.
Qed.

Lemma resize_cut (s : string) (n : nat) :
  (n <= length s)%nat -> resize s n = take n s.
Proof.
  intros H. unfold resize. replace (n - length s)%nat with O by lia.
  apply append_nil_r.
Qed.

Variable lib : ctime.
Variable format : string.
Variable lt : tm.

(** A fuel that reaches the size 512 by doubling is enough, whatever
    [strftime] does. *)
Lemma local_time_loop_ends (fuel : nat) :
  forall s n, (512 <= n * 2 ^ S fuel)%nat ->
    local_time_loop (S fuel) lib format lt s n <> None.
Proof.
  induction fuel as [|fuel IH]; intros s n Hn; cbn [local_time_loop];
    destruct (strftime lib format lt (n - 1) (resize s (n - 1))) as [r b];
    destruct (negb (r =? 0)%nat); try discriminate.
  - destruct (Nat.ltb_spec (n * 2) 512); [cbn in Hn; lia | discriminate].
  - destruct (n * 2 <? 512)%nat; [|discriminate].
    apply IH. rewrite Nat.pow_succ_r' in Hn. lia.
Qed.

Lemma local_time_loop_more (fuel k : nat) :
  forall s n out,
    local_time_loop fuel lib format lt s n = Some out ->
    local_time_loop (fuel + k) lib format lt s n = Some out.
Proof.
  induction fuel as [|fuel IH]; intros s n out H; [discriminate H|].
  cbn [local_time_loop Nat.add] in *.
  destruct (strftime lib format lt (n - 1) (resize s (n - 1))) as [r b].
  destruct (negb (r =? 0)%nat); [exact H|].
  destruct (n * 2 <? 512)%nat; [now apply IH | exact H].
Qed.

Variable text : string.
Hypothesis contract : strftime_contract lib format lt text.

(** A call that cannot hold the text, or has no text to hold, makes the
    loop go on with the next size, or end with the buffer. *)
Lemma local_time_loop_next (fuel : nat) (s : string) (n : nat) :
  (n - 1 <= length text)%nat \/ text = "" ->
  exists s',
    length s' = (n - 1)%nat
    /\ local_time_loop (S fuel) lib format lt s n
       = if (n * 2 <? 512)%nat
         then local_time_loop fuel lib format lt s' (n * 2)
         else Some s'.
Proof.
  intros H. cbn [local_time_loop].
  destruct (contract (n - 1)%nat (resize s (n - 1)) (length_resize _ _))
    as (Hlen & Hfit & Hnot).
  destruct (strftime lib format lt (n - 1) (resize s (n - 1))) as [r b].
  cbn [fst snd] in *.
  assert (r = O) as ->.
  { destruct H as [H| ->]; [now apply Hnot|].
    destruct (Nat.eq_dec (n - 1) 0) as [E|E].
    - apply Hnot. cbn. lia.
    - apply Hfit. cbn. lia. }
  cbn [Nat.eqb negb]. now exists b.
Qed.

(** A call that can hold a text that is not empty ends the loop with it. *)
Lemma local_time_loop_fits (fuel : nat) (s : string) (n : nat) :
  (0 < length text < n - 1)%nat ->
  local_time_loop (S fuel) lib format lt s n = Some text.
Proof.
  intros H. cbn [local_time_loop].
  destruct (contract (n - 1)%nat (resize s (n - 1)) (length_resize _ _))
    as (Hlen & Hfit & _).
  destruct (strftime lib format lt (n - 1) (resize s (n - 1))) as [r b].
  cbn [fst snd] in *. destruct (Hfit (proj2 H)) as [-> Htake].
  destruct (Nat.eqb_spec (length text) 0) as [E|_]; [lia|]. cbn [negb].
  rewrite resize_cut by lia. now rewrite Htake.
Qed.

End LocalTime.

(** X15: the loop of [local_time] ends after at most five calls of
    [strftime], with the sizes 15, 31, 63, 127 and 255, whatever [strftime]
    returns: five iterations give a result, and more give the same. *)
Theorem local_time_ends (lib : ctime) (format : string) (lt : tm) :
  (exists out, local_time_tm lib format lt = Some out)
  /\ (forall fuel, (5 <= fuel)%nat ->
        local_time_loop fuel lib format lt "" 16 = local_time_tm lib format lt).
Proof.
  assert (exists out, local_time_tm lib format lt = Some out) as [out E].
  { unfold local_time_tm.
    pose proof (local_time_loop_ends lib format lt 4 "" 16%nat) as H.
    destruct (local_time_loop 5 lib format lt "" 16) as [out|];
      [now exists out | exfalso; apply H; [cbn; lia | reflexivity]]. }
  split; [now exists out|].
  intros fuel Hfuel. rewrite E.
  replace fuel with (5 + (fuel - 5))%nat by lia.
  now apply local_time_loop_more.
Qed.

Lemma local_time_ends_witness :
  local_time_loop 9 (sample_ctime "09:30:00 17/08/26") "%X %x"
    (localtime_now (sample_ctime "09:30:00 17/08/26")) "" 16
  = local_time_tm (sample_ctime "09:30:00 17/08/26") "%X %x"
      (localtime_now (sample_ctime "09:30:00 17/08/26")).
Proof.
  apply (proj2 (local_time_ends (sample_ctime "09:30:00 17/08/26") "%X %x"
                  (localtime_now (sample_ctime "09:30:00 17/08/26")))).
  lia.
Defined.

Lemma sample_ctime_contract (text format : string) (lt : tm) :
  strftime_contract (sample_ctime text) format lt text.
Proof.
  intros max buf Hbuf. cbn [sample_ctime strftime].
  destruct (Nat.ltb_spec (length text) max) as [Hlt|Hge]; cbn [fst snd].
  - split; [|split; [intros _; split; [reflexivity | apply StrFacts.take_app] | lia]].
    rewrite StrFacts.length_append. cbn [length].
    rewrite StrFacts.length_drop. lia.
  - split; [exact Hbuf|]. split; [lia | reflexivity].
Qed.

(** X16: with a [strftime] that keeps the contract of the C standard,
    [local_time] returns the expansion of the format when that has between
    1 and 254 characters; when the expansion is empty or has 255
    characters or more it returns the buffer of 255 characters instead. *)
Theorem local_time_result (lib : ctime) (format text : string) :
  strftime_contract lib format (localtime_now lib) text ->
  ((1 <= length text <= 254)%nat -> local_time lib format = Some text)
  /\ (text = "" \/ (255 <= length text)%nat ->
      exists s, local_time lib format = Some s /\ length s = 255%nat).
Proof.
  intros C. unfold local_time, local_time_tm.
  set (lt := localtime_now lib) in *. split.
  - intros H.
    destruct (Nat.lt_ge_cases (length text) 15) as [H1|H1];
      [apply (local_time_loop_fits lib format lt text C); cbn; lia|].
    destruct (local_time_loop_next lib format lt text C 4 "" 16 (or_introl H1))
      as (s1 & _ & ->). change (16 * 2 <? 512)%nat with true. cbv iota.
    change (16 * 2)%nat with 32%nat.
    destruct (Nat.lt_ge_cases (length text) 31) as [H2|H2];
      [apply (local_time_loop_fits lib format lt text C); cbn; lia|].
    destruct (local_time_loop_next lib format lt text C 3 s1 32 (or_introl H2))
      as (s2 & _ & ->). change (32 * 2 <? 512)%nat with true. cbv iota.
    change (32 * 2)%nat with 64%nat.
    destruct (Nat.lt_ge_cases (length text) 63) as [H3|H3];
      [apply (local_time_loop_fits lib format lt text C); cbn; lia|].
    destruct (local_time_loop_next lib format lt text C 2 s2 64 (or_introl H3))
      as (s3 & _ & ->). change (64 * 2 <? 512)%nat with true. cbv iota.
    change (64 * 2)%nat with 128%nat.
    destruct (Nat.lt_ge_cases (length text) 127) as [H4|H4];
      [apply (local_time_loop_fits lib format lt text C); cbn; lia|].
    destruct (local_time_loop_next lib format lt text C 1 s3 128 (or_introl H4))
      as (s4 & _ & ->). change (128 * 2 <? 512)%nat with true. cbv iota.
    change (128 * 2)%nat with 256%nat.
    apply (local_time_loop_fits lib format lt text C). cbn. lia.
  - intros H.
    assert (forall n, (n - 1 <= 255)%nat ->
                      (n - 1 <= length text)%nat \/ text = "") as Hn
      by (intros n Hle; destruct H as [H|H]; [now right | left; lia]).
    destruct (local_time_loop_next lib format lt text C 4 "" 16
                (Hn 16%nat ltac:(cbn; lia))) as (s1 & _ & ->).
    change (16 * 2 <? 512)%nat with true. cbv iota.
    change (16 * 2)%nat with 32%nat.
    destruct (local_time_loop_next lib format lt text C 3 s1 32
                (Hn 32%nat ltac:(cbn; lia))) as (s2 & _ & ->).
    change (32 * 2 <? 512)%nat with true. cbv iota.
    change (32 * 2)%nat with 64%nat.
    destruct (local_time_loop_next lib format lt text C 2 s2 64
                (Hn 64%nat ltac:(cbn; lia))) as (s3 & _ & ->).
    change (64 * 2 <? 512)%nat with true. cbv iota.
    change (64 * 2)%nat with 128%nat.
    destruct (local_time_loop_next lib format lt text C 1 s3 128
                (Hn 128%nat ltac:(cbn; lia))) as (s4 & _ & ->).
    change (128 * 2 <? 512)%nat with true. cbv iota.
    change (128 * 2)%nat with 256%nat.
    destruct (local_time_loop_next lib format lt text C 0 s4 256
                (Hn 256%nat ltac:(cbn; lia))) as (s5 & Hs5 & ->).
    change (256 * 2 <? 512)%nat with false. cbv iota.
    exists s5. split; [reflexivity | exact Hs5].
Qed.

Lemma local_time_result_witness :
  local_time (sample_ctime "09:30:00 17/08/26") "%X %x" = Some "09:30:00 17/08/26"
  /\ exists s, local_time (sample_ctime "") "" = Some s /\ length s = 255%nat.
Proof.
  split.
  - apply (proj1 (local_time_result (sample_ctime "09:30:00 17/08/26") "%X %x"
                    "09:30:00 17/08/26" (sample_ctime_contract _ _ _))).
    cbn. lia.
  - apply (proj2 (local_time_result (sample_ctime "") "" ""
                    (sample_ctime_contract _ _ _))).
    left. reflexivity.
Defined.

(** ** Substitutions one after the other *)

Section SubstSteps.
Import Str StrFacts.

Variables tok v : string.

Lemma Subst_skip (c : ascii) (s out : string) :
  starts_with (String c s) tok = false ->
  Subst tok v s out -> Subst tok v (String c s) (String c out).
Proof.
  intros Hc H. destruct H as [s Hno | pre post out Hmin H].
  - constructor. intros [|k] Hk.
    + apply occurs_zero in Hk. congruence.
    + apply occurs_succ in Hk. exact (Hno k Hk).
  - change (String c (pre ++ tok ++ post)) with (String c pre ++ tok ++ post).
    change (String c (pre ++ v ++ out)) with (String c pre ++ v ++ out).
    constructor; [|exact H].
    intros [|k] Hk Hocc.
    + apply occurs_zero in Hocc.
      change (String c pre ++ tok ++ post) with (String c (pre ++ tok ++ post)) in Hocc.
      congruence.
    + change (String c pre ++ tok ++ post) with (String c (pre ++ tok ++ post)) in Hocc.
      apply occurs_succ in Hocc. cbn in Hk. apply (Hmin k); [lia | exact Hocc].
Qed.

Lemma Subst_here (s out : string) :
  Subst tok v s out -> Subst tok v (tok ++ s) (v ++ out).
Proof.
  intros H. apply (Subst_hit tok v "" s out); [|exact H].
  intros k Hk. cbn in Hk. lia.
Qed.

End SubstSteps.

Section SubstPercent.
Import Str StrFacts.

Variables rest v : string.

Lemma Subst_plain (p s out : string) :
  no_percent p = true ->
  Subst (String "%" rest) v s out ->
  Subst (String "%" rest) v (p ++ s) (p ++ out).
Proof.
  intros Hp H. induction p as [|c p IH]; [exact H|].
  cbn in Hp. apply andb_true_iff in Hp as [Hc Hp]. cbn [append].
  apply Subst_skip; [|now apply IH].
  cbn. destruct (Ascii.eqb c "%"); [discriminate Hc | reflexivity].
Qed.

Lemma Subst_other (letters s out : string) :
  no_percent letters = true ->
  starts_with (String "%" letters ++ s) (String "%" rest) = false ->
  Subst (String "%" rest) v s out ->
  Subst (String "%" rest) v (String "%" letters ++ s) (String "%" letters ++ out).
Proof.
  intros Hl Hs H. cbn [append]. apply Subst_skip; [exact Hs|].
  now apply Subst_plain.
Qed.

End SubstPercent.

Lemma starts_with_short (e rest t : string) :
  Str.starts_with (e ++ rest) t = true -> (length t <= length e)%nat ->
  Str.starts_with e t = true.
Proof.
  revert e; induction t as [|b t IH]; intros e H L; [reflexivity|].
  destruct e as [|a e]; [cbn in L; lia|].
  cbn in *. apply andb_true_iff in H as [Hab H].
  rewrite Hab. apply IH; [exact H | lia].
Qed.

Section Passes.
Import Str StrFacts.

Variable tokens : list string.
Variable val : string -> string.

(** Every escape is the character % and letters. *)
Hypothesis shape :
  forall t, In t tokens ->
    exists letters, t = String "%" letters /\ no_percent letters = true.

(** Whether a text makes an escape longer is told by its first
    character. *)
Hypothesis first_character :
  forall e c s s', In e tokens ->
    ext tokens e (String c s) = ext tokens e (String c s').

(** A value is a text without %, not empty, that makes no escape
    longer. *)
Hypothesis values :
  forall t, In t tokens ->
    exists c s,
      val t = String c s /\ no_percent (val t) = true
      /\ forall e s', In e tokens -> ext tokens e (String c s') = false.

Lemma pass_Subst (t letters : string) (items : list item) :
  t = String "%" letters ->
  pass_ok t items ->
  Subst t (val t) (flatten items) (flatten (pass val t items)).
Proof.
  intros Et. induction items as [|[s|e] items IH]; cbn [pass_ok flatten pass map subst_item].
  - intros _. constructor. intros k H. apply occurs_bound in H.
    rewrite Et in H. cbn in H. lia.
  - intros [Hs Hok]. rewrite Et. apply Subst_plain; [exact Hs|].
    rewrite <- Et. now apply IH.
  - intros [He Hok]. specialize (IH Hok). fold (pass val t items).
    destruct (String.eqb_spec e t) as [->|Hne].
    + cbn [flatten]. now apply Subst_here.
    + destruct He as [He|(Hs & l & -> & Hl)]; [contradiction|].
      cbn [flatten]. rewrite Et in *. now apply Subst_other.
Qed.

Lemma pass_replace_all (t letters : string) (items : list item) :
  t = String "%" letters ->
  pass_ok t items ->
  replace_all (flatten items) t (val t) = Ok (flatten (pass val t items)).
Proof.
  intros Et Hok.
  destruct (replace_all_subst t (val t) (flatten items)) as (out & E & HS);
    [rewrite Et; discriminate|].
  rewrite E. f_equal.
  exact (Subst_functional t (val t) _ _ _ HS (pass_Subst t letters items Et Hok)).
Qed.

Lemma ext_false (e rest t : string) :
  ext tokens e rest = false -> In t tokens ->
  starts_with (e ++ rest) t = true -> (length t <= length e)%nat.
Proof.
  unfold ext. intros H Hin Hs.
  destruct (Nat.ltb_spec (length e) (length t)) as [Hlt|Hge]; [|exact Hge].
  exfalso. assert (existsb (fun t => starts_with (e ++ rest) t
                                      && (length e <? length t)%nat) tokens = true).
  { apply existsb_exists. exists t. split; [exact Hin|].
    rewrite Hs. now apply Nat.ltb_lt. }
  congruence.
Qed.

Lemma pending_pass_ok (t : string) (todo : list string) (items : list item) :
  In t tokens ->
  (forall e, In e todo -> In e tokens /\ e <> t /\ starts_with e t = false) ->
  pending tokens (t :: todo) items -> pass_ok t items.
Proof.
  intros Ht Htodo. induction items as [|[s|e] items IH]; cbn [pending pass_ok].
  - trivial.
  - intros (Hs & _ & H). split; [exact Hs | now apply IH].
  - intros (He & Hext & H). split; [|now apply IH].
    destruct He as [<-|He]; [now left | right].
    destruct (Htodo e He) as (Hin & Hne & Hst). split; [|now apply shape].
    destruct (starts_with (e ++ flatten items) t) eqn:E; [exfalso | reflexivity].
    pose proof (ext_false _ _ _ Hext Ht E) as L.
    rewrite (starts_with_short _ _ _ E L) in Hst. discriminate.
Qed.

Lemma ext_stable (t e : string) (todo : list string) (items : list item) :
  In t tokens -> In e tokens ->
  (forall x, In x todo -> In x tokens) ->
  pending tokens todo items ->
  ext tokens e (flatten items) = false ->
  ext tokens e (flatten (pass val t items)) = false.
Proof.
  intros Ht He Htodo Hp Hext.
  destruct items as [|[s|e2] items]; cbn [pass map subst_item flatten] in *;
    [exact Hext| |].
  - destruct Hp as (_ & Hs & _). destruct s as [|c s]; [congruence|].
    cbn [append] in *. now rewrite (first_character e c _ (s ++ flatten items)).
  - destruct Hp as (Hin & _). destruct (shape e2 (Htodo e2 Hin)) as (l & -> & _).
    destruct (String.eqb_spec (String "%" l) t) as [E|_]; cbn [flatten].
    + destruct (values t Ht) as (c & s & -> & _ & Hv). cbn [append]. now apply Hv.
    + cbn [append] in *.
      now rewrite (first_character e "%" _ (l ++ flatten items)).
Qed.

Lemma pending_pass (t : string) (todo : list string) (items : list item) :
  In t tokens ->
  (forall e, In e todo -> In e tokens /\ e <> t /\ starts_with e t = false) ->
  pending tokens (t :: todo) items ->
  pending tokens todo (pass val t items).
Proof.
  intros Ht Htodo. induction items as [|[s|e] items IH];
    cbn [pending pass map subst_item].
  - trivial.
  - intros (Hs & Hne & H). repeat split; [exact Hs | exact Hne | now apply IH].
  - intros (He & Hext & H). fold (pass val t items).
    destruct (String.eqb_spec e t) as [->|Hne]; cbn [pending].
    + destruct (values t Ht) as (c & s & Ev & Hv & _).
      repeat split; [exact Hv | rewrite Ev; discriminate | now apply IH].
    + destruct He as [E|He]; [congruence|].
      repeat split; [exact He | | now apply IH].
      apply (ext_stable t e (t :: todo)); try assumption.
      * now apply Htodo.
      * intros x [<-|Hx]; [exact Ht | now apply Htodo].
Qed.

Lemma expand_pass (t : string) (items : list item) :
  expand val (pass val t items) = expand val items.
Proof.
  induction items as [|[s|e] items IH]; cbn [pass map subst_item expand];
    [reflexivity | now f_equal |].
  fold (pass val t items).
  destruct (String.eqb_spec e t) as [->|_]; cbn [expand]; now f_equal.
Qed.

Lemma pending_done (items : list item) :
  pending tokens [] items -> flatten items = expand val items.
Proof.
  induction items as [|[s|e] items IH]; cbn [pending flatten expand].
  - reflexivity.
  - intros (_ & _ & H). now rewrite IH.
  - intros ([] & _).
Qed.

(** The substitutions of a list of escapes, longer first, replace the
    escapes that stand as items, each by its value. *)
Lemma run_expands (todo : list string) :
  longer_first todo ->
  (forall t, In t todo -> In t tokens) ->
  forall items,
    pending tokens todo items ->
    run val todo (flatten items) = Ok (expand val items).
Proof.
  induction todo as [|t todo IH]; intros Hord Hin items Hp; cbn [run].
  - now rewrite (pending_done items Hp).
  - destruct Hord as [Ht Hord].
    assert (forall e, In e todo -> In e tokens /\ e <> t /\ starts_with e t = false)
      as Htodo.
    { intros e He. split; [apply Hin; now right | now apply Ht]. }
    destruct (shape t (Hin t (or_introl eq_refl))) as (l & Et & _).
    rewrite (pass_replace_all t l items Et)
      by (apply (pending_pass_ok t todo); auto; apply Hin; now left).
    cbn [bind]. rewrite IH.
    + now rewrite expand_pass.
    + exact Hord.
    + intros x Hx. apply Hin. now right.
    + apply pending_pass; auto. apply Hin. now left.
Qed.

Lemma written_well_pending (items : list item) :
  written_well tokens items -> pending tokens tokens items.
Proof.
  induction items as [|[s|e] items IH]; cbn [written_well pending].
  - trivial.
  - intros (Hs & Hne & H). auto.
  - intros (He & Hlong & H). repeat split; [exact He | | now apply IH].
    unfold ext. destruct (existsb _ tokens) eqn:E; [exfalso | reflexivity].
    apply existsb_exists in E as (t & Ht & E).
    apply andb_true_iff in E as [Hs Hlt]. apply Nat.ltb_lt in Hlt.
    specialize (Hlong t Ht Hs). lia.
Qed.

End Passes.

(** ** game_time: format strings written with escapes *)

Ltac each_token H tac :=
  cbn in H;
  repeat (destruct H as [<-|H]; [tac|]);
  try solve [destruct H].

Lemma calendar_shape (t : string) :
  In t calendar_tokens ->
  exists letters, t = String "%" letters /\ no_percent letters = true.
Proof.
  intros H. each_token H ltac:(eexists; split; reflexivity).
Qed.

Lemma calendar_first_character (e : string) (c : ascii) (s s' : string) :
  In e calendar_tokens ->
  ext calendar_tokens e (String c s) = ext calendar_tokens e (String c s').
Proof.
  intros H. each_token H ltac:(reflexivity).
Qed.

Lemma calendar_longer_first : longer_first calendar_tokens.
Proof.
  unfold calendar_tokens. cbn [longer_first].
  repeat (split;
          [intros e He; each_token He ltac:(split; [discriminate | reflexivity])|]).
  exact I.
Qed.

(** A character after which no escape of the game time grows longer. *)
Lemma calendar_neutral (ch : ascii) :
  forallb (fun e => negb (ext calendar_tokens e (String ch ""))) calendar_tokens
  = true ->
  forall e s', In e calendar_tokens -> ext calendar_tokens e (String ch s') = false.
Proof.
  intros H e s' He. rewrite forallb_forall in H. specialize (H e He).
  rewrite (calendar_first_character e ch s' "" He).
  now destruct (ext calendar_tokens e (String ch "")).
Qed.

Lemma to_string_first (z : Z) :
  exists ch s,
    Int.to_string z = String ch s
    /\ forallb (fun e => negb (ext calendar_tokens e (String ch ""))) calendar_tokens
       = true.
Proof.
  unfold Int.to_string, NilZero.string_of_int, NilZero.string_of_uint.
  destruct (Z.to_int z) as [d|d]; destruct d; cbn [NilEmpty.string_of_uint];
    do 2 eexists; split; reflexivity.
Qed.

Lemma table_value (table : list string) (n : nat) :
  (n < List.length table)%nat ->
  forallb (fun name =>
             match name with
             | String ch _ =>
                 forallb (fun e => negb (ext calendar_tokens e (String ch "")))
                   calendar_tokens
                 && no_percent name
             | EmptyString => false
             end) table = true ->
  exists ch s,
    nth n table "" = String ch s
    /\ no_percent (nth n table "") = true
    /\ forall e s', In e calendar_tokens ->
         ext calendar_tokens e (String ch s') = false.
Proof.
  intros Hn H. rewrite forallb_forall in H.
  specialize (H (nth n table "") (nth_In table "" Hn)).
  destruct (nth n table "") as [|ch s]; [discriminate|].
  apply andb_true_iff in H as [Hch Hs].
  exists ch, s. split; [reflexivity|]. split; [exact Hs|].
  now apply calendar_neutral.
Qed.

Lemma accepted_finite (v : spec_float) :
  epoch_rejected v = false -> F32.isfinite v = true.
Proof.
  unfold epoch_rejected, F32.isnormal, SFclassify.
  destruct v as [s|s| |s mm e]; try destruct s; cbn; try discriminate; reflexivity.
Qed.

Lemma raw_value_first (v : spec_float) :
  F32.isfinite v = true ->
  exists ch s,
    F32.to_string v = String ch s
    /\ forall e s', In e calendar_tokens ->
         ext calendar_tokens e (String ch s') = false.
Proof.
  assert (forall q, exists ch s,
             F32.fixed_text 6 q = String ch s
             /\ forallb (fun e => negb (ext calendar_tokens e (String ch "")))
                  calendar_tokens = true) as Hfixed.
  { intros q. unfold F32.fixed_text.
    destruct (to_string_first (q / 10 ^ Z.of_nat 6)) as (ch & s & -> & H).
    cbn [append]. now do 2 eexists. }
  unfold F32.to_string. intros Hv.
  destruct v as [s|s| |s mm e]; try discriminate Hv; cbn [F32.format_f];
    match goal with
    | |- context [F32.fixed_text 6 ?q] =>
        destruct (Hfixed q) as (ch & t & -> & H)
    end;
    (destruct s; cbn [F32.sign_text append];
     [exists "-"%char; eexists; split;
        [reflexivity | now apply calendar_neutral]
     | exists ch, t; split; [reflexivity | now apply calendar_neutral]]).
Qed.

(** The values of the game time are texts as [run_expands] wants them. *)
Lemma calendar_values (v : spec_float) (c : calendar) (t : string) :
  F32.isfinite v = true ->
  0 <= cal_mo c <= 11 -> 0 <= cal_wd c <= 6 ->
  In t calendar_tokens ->
  exists ch s,
    calendar_value v c t = String ch s
    /\ no_percent (calendar_value v c t) = true
    /\ forall e s', In e calendar_tokens ->
         ext calendar_tokens e (String ch s') = false.
Proof.
  intros Hv Hmo Hwd Ht.
  assert (forall z, exists ch s,
             Int.to_string z = String ch s
             /\ no_percent (Int.to_string z) = true
             /\ forall e s', In e calendar_tokens ->
                  ext calendar_tokens e (String ch s') = false) as Hnum.
  { intros z. destruct (to_string_first z) as (ch & s & E & H).
    exists ch, s. split; [exact E|]. split; [apply no_percent_to_string|].
    now apply calendar_neutral. }
  assert (forall table i,
             0 <= i < Z.of_nat (List.length table) ->
             forallb (fun name =>
               match name with
               | String ch _ =>
                   forallb (fun e => negb (ext calendar_tokens e (String ch "")))
                     calendar_tokens
                   && no_percent name
               | EmptyString => false
               end) table = true ->
             exists ch s,
               nth (Z.to_nat i) table "" = String ch s
               /\ no_percent (nth (Z.to_nat i) table "") = true
               /\ forall e s', In e calendar_tokens ->
                    ext calendar_tokens e (String ch s') = false) as Hname.
  { intros table i Hi H. apply table_value; [lia | exact H]. }
  unfold calendar_value.
  each_token Ht ltac:(cbn [calendar_escape String.eqb Ascii.eqb Bool.eqb];
                      first
                        [ apply Hnum
                        | apply Hname; [cbn; lia | reflexivity]
                        | idtac ]).
  - destruct (Hnum (cal_y c)) as (ch & s & E & Hs & H).
    exists "4"%char. eexists. split; [reflexivity|].
    split; [cbn; exact Hs | now apply calendar_neutral].
  - destruct (raw_value_first v Hv) as (ch & s & E & H).
    exists ch, s. split; [exact E|]. split; [|exact H].
    apply no_percent_format_f.
Qed.

Lemma substitute_calendar_run (v : spec_float) (c : calendar) (format : string) :
  0 <= cal_mo c <= 11 -> 0 <= cal_wd c <= 6 ->
  substitute_calendar v c format
  = run (calendar_value v c) calendar_tokens format.
Proof.
  intros Hmo Hwd. unfold substitute_calendar.
  rewrite (at_in_bounds longmon), (at_in_bounds birtmon), (at_in_bounds argomon),
    (at_in_bounds shrtwday), (at_in_bounds longwday)
    by (unfold longmon, birtmon, argomon, shrtwday, longwday;
        cbn [List.length]; lia).
  rewrite !wrap_in_range
    by (unfold Int.INT_MIN, Int.INT_MAX; change (2 ^ 31) with 2147483648; lia).
  reflexivity.
Qed.

(** X17: for a format string spelled by texts without the character % and
    escapes of the game time, in which what follows an escape does not
    make a longer escape of it, [game_time] returns the texts with every
    escape replaced by what it stands for, whenever the game time is
    accepted and its day count is inside the range of [int]: the
    substitutions made one after the other amount to one substitution of
    all the escapes at once. *)
Theorem game_time_expands (g : globals) (m : memory) (items : list item) :
  obtain (skyrim_base g) m (game_epoch g) <> 0 ->
  epoch_rejected (load_float m (obtain (skyrim_base g) m (game_epoch g))) = false ->
  0 <= F32.to_int (load_float m (obtain (skyrim_base g) m (game_epoch g)))
    <= Int.INT_MAX - 231 ->
  written_well calendar_tokens items ->
  game_time g m (flatten items)
  = Ok (expand
          (calendar_value
             (load_float m (obtain (skyrim_base g) m (game_epoch g)))
             (compute_calendar
                (load_float m (obtain (skyrim_base g) m (game_epoch g)))))
          items).
Proof.
  intros Hp Hv Hfit Hw.
  rewrite (game_time_accepted g m _ Hp Hv).
  destruct (compute_calendar_bounds _ Hfit) as (_ & Hmo & _ & Hwd).
  rewrite (substitute_calendar_run _ _ _ Hmo Hwd).
  apply (run_expands calendar_tokens _ calendar_shape calendar_first_character).
  - intros t Ht. apply calendar_values; try assumption.
    now apply accepted_finite.
  - exact calendar_longer_first.
  - auto.
  - apply written_well_pending. exact Hw.
Qed.

(** The format string of the game time variable, "%h:%m %ld, day %md of
    %lm, %Y", at the raw value 0.45. *)
Lemma game_time_expands_witness :
  game_time sample_globals (epoch_memory 0x3EE66666)
    (flatten [Esc "%h"; Plain ":"; Esc "%m"; Plain " "; Esc "%ld";
              Plain ", day "; Esc "%md"; Plain " of "; Esc "%lm"; Plain ", ";
              Esc "%Y"])
  = Ok "10:47 Sundas, day 17 of Last Seed, 4E201".
Proof.
  rewrite (game_time_expands sample_globals (epoch_memory 0x3EE66666)).
  - vm_compute. reflexivity.
  - vm_compute. discriminate.
  - vm_compute. reflexivity.
  - vm_compute. split; discriminate.
  - cbn [written_well flatten].
    repeat split; try discriminate; try (cbn; tauto);
      intros tok' Hin Hs;
      each_token Hin ltac:(first [discriminate Hs | cbn; lia]).
Defined.

(** ** player_location: format strings written with escapes *)

Section LocationPasses.

Variable val : string -> string.

Hypothesis plain_values :
  forall t, In t location_tokens -> no_percent (val t) = true.

Lemma location_pass_ok (t : string) (todo : list string) (items : list item) :
  In t location_tokens ->
  (forall e, In e todo -> In e location_tokens) ->
  listed (t :: todo) items -> pass_ok t items.
Proof.
  intros Ht Htodo. induction items as [|[s|e] items IH]; cbn [listed pass_ok].
  - trivial.
  - intros [Hs H]. split; [exact Hs | now apply IH].
  - intros [He H]. split; [|now apply IH].
    destruct (String.eqb_spec e t) as [E|Hne]; [now left | right].
    assert (In e location_tokens) as Hin
      by (destruct He as [<-|He]; [exact Ht | now apply Htodo]).
    clear He IH H.
    each_token Hin
      ltac:(each_token Ht
              ltac:(first [ congruence
                          | split; [reflexivity | eexists; split; reflexivity] ])).
Qed.

Lemma listed_pass (t : string) (todo : list string) (items : list item) :
  In t location_tokens ->
  listed (t :: todo) items -> listed todo (pass val t items).
Proof.
  intros Ht. induction items as [|[s|e] items IH];
    cbn [listed pass map subst_item].
  - trivial.
  - intros [Hs H]. split; [exact Hs | now apply IH].
  - intros [He H]. fold (pass val t items).
    destruct (String.eqb_spec e t) as [->|Hne]; cbn [listed].
    + split; [now apply plain_values | now apply IH].
    + destruct He as [E|He]; [congruence|]. split; [exact He | now apply IH].
Qed.

Lemma listed_done (items : list item) :
  listed [] items -> flatten items = expand val items.
Proof.
  induction items as [|[s|e] items IH]; cbn [listed flatten expand].
  - reflexivity.
  - intros [_ H]. now rewrite IH.
  - intros [[] _].
Qed.

Lemma run_location (todo : list string) :
  (forall t, In t todo -> In t location_tokens) ->
  forall items,
    listed todo items ->
    run val todo (flatten items) = Ok (expand val items).
Proof.
  induction todo as [|t todo IH]; intros Hin items Hl; cbn [run].
  - now rewrite (listed_done items Hl).
  - assert (In t location_tokens) as Ht by (apply Hin; now left).
    assert (exists letters, t = String "%" letters) as [l Et]
      by (clear - Ht; each_token Ht ltac:(eexists; reflexivity)).
    rewrite (pass_replace_all val t l items Et)
      by (apply (location_pass_ok t todo); auto; intros e He; apply Hin; now right).
    cbn [bind]. rewrite IH.
    + now rewrite expand_pass.
    + intros x Hx. apply Hin. now right.
    + now apply listed_pass.
Qed.

End LocationPasses.

Lemma substitute_location_run (p0 p1 p2 : spec_float) (world cell : Z)
    (m : memory) (format : string) :
  bind (substitute_coordinates p0 p1 p2 format) (substitute_names world cell m)
  = run (location_value p0 p1 p2 (name_text m world) (name_text m cell))
      location_tokens format.
Proof.
  unfold substitute_coordinates, location_tokens. cbn [run].
  change (location_value p0 p1 p2 (name_text m world) (name_text m cell) "%x")
    with (F32.snprintf_0f p0).
  destruct (replace_all format "%x" _) as [f1| |]; cbn [bind]; try reflexivity.
  change (location_value p0 p1 p2 (name_text m world) (name_text m cell) "%y")
    with (F32.snprintf_0f p1).
  destruct (replace_all f1 "%y" _) as [f2| |]; cbn [bind]; try reflexivity.
  change (location_value p0 p1 p2 (name_text m world) (name_text m cell) "%z")
    with (F32.snprintf_0f p2).
  destruct (replace_all f2 "%z" _) as [f3| |]; cbn [bind]; try reflexivity.
  change (location_value p0 p1 p2 (name_text m world) (name_text m cell) "%cx")
    with (Int.to_string (F32.to_int (F32.floor (F32.fdiv p0 (F32.of_int 4096))))).
  destruct (replace_all f3 "%cx" _) as [f4| |]; cbn [bind]; try reflexivity.
  change (location_value p0 p1 p2 (name_text m world) (name_text m cell) "%cy")
    with (Int.to_string (F32.to_int (F32.floor (F32.fdiv p1 (F32.of_int 4096))))).
  destruct (replace_all f4 "%cy" _) as [f5| |]; cbn [bind]; try reflexivity.
  rewrite substitute_names_text.
  change (location_value p0 p1 p2 (name_text m world) (name_text m cell) "%wn")
    with (name_text m world).
  change (location_value p0 p1 p2 (name_text m world) (name_text m cell) "%cn")
    with (name_text m cell).
  unfold name_text.
  destruct (replace_all f5 "%wn" _) as [f6| |]; cbn [bind]; try reflexivity.
  now destruct (replace_all f6 "%cn" _).
Qed.

(** X18: for a format string spelled by texts without the character % and
    escapes of the player position, [player_location] returns the texts
    with every escape replaced by what it stands for, an absent name by the
    empty text, whenever the position is available and finite and the two
    names hold no character %. *)
Theorem player_location_expands (g : globals) (m : memory) (items : list item) :
  obtain (skyrim_base g) m (player_pos g) <> 0 ->
  F32.isfinite (load_float m (obtain (skyrim_base g) m (player_pos g))) = true ->
  F32.isfinite
    (load_float m (addp (obtain (skyrim_base g) m (player_pos g)) 4)) = true ->
  F32.isfinite
    (load_float m (addp (obtain (skyrim_base g) m (player_pos g)) 8)) = true ->
  no_percent (name_text m (obtain (skyrim_base g) m (worldspace_name g))) = true ->
  no_percent (name_text m (obtain (skyrim_base g) m (player_cell g))) = true ->
  listed location_tokens items ->
  player_location g m (flatten items)
  = Ok (expand
          (location_value
             (load_float m (obtain (skyrim_base g) m (player_pos g)))
             (load_float m (addp (obtain (skyrim_base g) m (player_pos g)) 4))
             (load_float m (addp (obtain (skyrim_base g) m (player_pos g)) 8))
             (name_text m (obtain (skyrim_base g) m (worldspace_name g)))
             (name_text m (obtain (skyrim_base g) m (player_cell g))))
          items).
Proof.
  intros Hp H0 H1 H2 Hw Hc Hl.
  rewrite (player_location_accepted g m _ Hp H0 H1 H2).
  rewrite substitute_location_run.
  apply run_location; [|auto|exact Hl].
  intros t Ht. unfold location_value.
  each_token Ht ltac:(cbn [location_escape String.eqb Ascii.eqb Bool.eqb];
                      first [ apply no_percent_snprintf
                            | apply no_percent_to_string
                            | assumption ]).
Qed.

(** The format string of the position variable, "%wn, %cn: %x %y %z", for a
    player at (1, 2, -4097) in the cell "Whiterun" of no world space. *)
Lemma player_location_expands_witness :
  player_location sample_globals
    (player_memory 0x3F800000 0x40000000 0xC5800800 0 0x32000000)
    (flatten [Esc "%wn"; Plain ", "; Esc "%cn"; Plain ": "; Esc "%x";
              Plain " "; Esc "%y"; Plain " "; Esc "%z"])
  = Ok ", Whiterun: 1 2 -4097".
Proof.
  rewrite (player_location_expands sample_globals
             (player_memory 0x3F800000 0x40000000 0xC5800800 0 0x32000000));
    try (vm_compute; reflexivity); try (vm_compute; discriminate).
  cbn. tauto.
Defined.
